(** * Alignment logic of qudi-s2qt: a shallow embedding

    This development embeds [src/qudi/logic/alignment_logic.py] (class
    [AlignmentLogic]) and states the properties of its raster scan, gradient
    stepper, alignment store, axis-range validation, activation and
    property setters.  Of the positioner
    [src/qudi/hardware/motor/ape_harmonixx.py] it embeds the methods that do
    not talk to the device.

    Conventions of the embedding:
    - Python floats are exact rationals ([Q]), without rounding; the
      quotients of NumPy, which may be infinite or NaN, are [npfloat].
    - Python dictionaries that are iterated ([.items()], [.values()]) are
      insertion-ordered association lists; the alignment table, which is only
      read and written by name, is a [gmap].
    - A method of the class is a computation in the monad [M]: it takes the
      object and the hardware it talks to, and returns them together with
      either a value or the exception that escaped.  What was assigned
      before an exception stays assigned, as in Python.
    - The motor and the counter are known through their interfaces only,
      and their calls always return: a failing instrument is not modelled.
    - The Qt signal is the list of its connections; which tick the event
      loop delivers, and when, is left to the caller of the methods. *)

From Stdlib Require Import QArith Qround Lqa.
From stdpp Require Import gmap strings list fin_maps.

Open Scope nat_scope.

(** ** Exceptions *)

Inductive exn : Type :=
  | KeyError | TypeError | AttributeError | ValueError | IndexError
  | ZeroDivisionError
  | FitError | AlreadyRunning.

(** ** NumPy: n-dimensional arrays

    An array is its shape and the element found at each index vector.  A
    transposed array is the same elements read with the index reversed, as in
    NumPy where [.T] is a view. *)

Record ndarray : Type := NdArray { shape : list nat; at_index : list nat -> Q }.

(** [np.prod(sh)]: the number of elements of an array of shape [sh]. *)
Definition np_prod (sh : list nat) : nat := fold_right Nat.mul 1 sh.

(** [np.unravel_index(r, sh)] in C order: the last index varies fastest. *)
Fixpoint unravel (sh : list nat) (r : nat) : list nat :=
  match sh with
  | [] => []
  | d :: sh' => (r / np_prod sh') mod d :: unravel sh' r
  end.

Definition swap01 {A} (l : list A) : list A :=
  match l with
  | a :: b :: t => b :: a :: t
  | _ => l
  end.

(** [np.meshgrid] of the arrays [xi], with the default [indexing='xy']:
    every output has the shape (N1, N0, N2, ...), and output [i] repeats
    [xi[i]] along its own axis, which is axis 1 for [i = 0], axis 0 for
    [i = 1], axis [i] else. *)
Definition meshgrid (xi : list (list Q)) : list ndarray :=
  let s0 := swap01 (map length xi) in
  imap (fun i x => NdArray s0 (fun idx => nth (nth i (swap01 idx) 0) x 0%Q)) xi.

(** [np.array(arrs)] on a list of arrays of one shape: stacked along a new
    first axis. *)
Definition np_array (arrs : list ndarray) : ndarray :=
  NdArray (length arrs :: match arrs with [] => [] | a :: _ => shape a end)
          (fun idx => match idx with
                      | [] => 0%Q
                      | k :: idx' => at_index (nth k arrs (NdArray [] (fun _ => 0%Q))) idx'
                      end).

(** [a.T] *)
Definition transpose (a : ndarray) : ndarray :=
  NdArray (rev (shape a)) (fun idx => at_index a (rev idx)).

(** [a.ravel()]: the elements in C order. *)
Definition ravel (a : ndarray) : list Q :=
  map (fun r => at_index a (unravel (shape a) r)) (seq 0 (np_prod (shape a))).

(** [a.reshape(-1, n)] as the list of its rows.  The unknown dimension cannot
    be inferred when [n] is 0 or does not divide the size. *)
Definition reshape_rows (a : ndarray) (n : nat) : exn + list (list Q) :=
  let total := np_prod (shape a) in
  if (n =? 0) || negb (total mod n =? 0) then inl ValueError
  else inr (map (fun r => map (fun k => nth (r * n + k) (ravel a) 0%Q) (seq 0 n))
                (seq 0 (total / n))).

(** The points of a raster scan, [alignment_logic.py] line 273:
    [np.array(np.meshgrid( ranges... )).T.reshape(-1, len(ranges))]
    (the [.T] of each one-dimensional range is the range itself). *)
Definition raster_points (ranges : list (list Q)) : exn + list (list Q) :=
  reshape_rows (transpose (np_array (meshgrid ranges))) (length ranges).

(** The row-major Cartesian expansion, the last list varying fastest. *)
Fixpoint row_major_product (xs : list (list Q)) : list (list Q) :=
  match xs with
  | [] => [[]]
  | x :: xs' => flat_map (fun a => map (cons a) (row_major_product xs')) x
  end.

(** ** Python values *)

(** A dictionary key: the axis labels of the hardware modules are strings,
    the indices handed out by [enumerate] are integers. *)
Inductive key : Type := KStr (s : string) | KInt (i : Z).

#[global] Instance key_eq_dec : EqDecision key.
Proof. solve_decision. Defined.

(** An insertion-ordered dictionary. *)
Definition dict (V : Type) : Type := list (key * V).

Fixpoint dict_get {V} (d : dict V) (k : key) : option V :=
  match d with
  | [] => None
  | (k', v) :: d' => if decide (k' = k) then Some v else dict_get d' k
  end.

(** [d[k] = v]: an existing key keeps its place, a new key goes last. *)
Fixpoint dict_set {V} (d : dict V) (k : key) (v : V) : dict V :=
  match d with
  | [] => [(k, v)]
  | (k', v') :: d' => if decide (k' = k) then (k, v) :: d' else (k', v') :: dict_set d' k v
  end.

Definition dict_values {V} (d : dict V) : list V := map snd d.

(** [d[k]] *)
Definition getitem {V} (d : dict V) (k : key) : exn + V :=
  match dict_get d k with Some v => inr v | None => inl KeyError end.

(** [l[i]] on a sequence, a negative index counting from the end. *)
Definition py_index {A} (l : list A) (i : Z) : exn + A :=
  let n := Z.of_nat (length l) in
  let i' := (if i <? 0 then i + n else i)%Z in
  if (i' <? 0)%Z then inl IndexError
  else match l !! Z.to_nat i' with Some x => inr x | None => inl IndexError end.

(** A NumPy float: division of arrays does not raise, it yields these. *)
Inductive npfloat : Type := Finite (q : Q) | Inf (positive : bool) | NaN.

#[warnings="-register-all"]
Inductive pyval : Type :=
  | PyFloat (x : npfloat)
  | PyList (l : list pyval).

Definition Qltb (a b : Q) : bool := negb (Qle_bool b a).

(** Truth value of a float: only zero is false. *)
Definition truthy (x : Q) : bool := negb (Qeq_bool x 0).

(** ** NumPy on one- and two-dimensional data

    A one-dimensional array is the list of its elements and a two-dimensional
    one the list of its rows. *)

(** [np.array(rows)] on a list of lists: the rows must have one length.  No
    row at all gives the one-dimensional empty array. *)
Definition np_array_rows (rows : list (list Q)) : exn + list (list Q) :=
  match rows with
  | [] => inr []
  | r :: rest => if forallb (fun r' => length r' =? length r) rest
                 then inr rows else inl ValueError
  end.

Definition ncols (a : list (list Q)) : nat :=
  match a with [] => 0 | r :: _ => length r end.

(** [a[:, j]] *)
Definition column (a : list (list Q)) (j : nat) : exn + list Q :=
  if j <? ncols a then inr (map (fun r => nth j r 0%Q) a) else inl IndexError.

(** [a[i, j]] *)
Definition item2 (a : list (list Q)) (i : Z) (j : nat) : exn + Q :=
  match py_index a i with
  | inl e => inl e
  | inr r => if j <? ncols a then inr (nth j r 0%Q) else inl IndexError
  end.

(** [v[::2]] and [v[1::2]] *)
Fixpoint slice_even (v : list Q) : list Q :=
  match v with
  | [] => []
  | x :: v' => x :: match v' with [] => [] | _ :: v'' => slice_even v'' end
  end.

Definition slice_odd (v : list Q) : list Q :=
  match v with [] => [] | _ :: v' => slice_even v' end.

(** [u - v] on one-dimensional arrays: equal lengths, or one of them of
    length one that is broadcast. *)
Definition np_subtract (u v : list Q) : exn + list Q :=
  if length u =? length v then inr (zip_with Qminus u v)
  else match u, v with
       | [x], _ => inr (map (fun y => x - y)%Q v)
       | _, [y] => inr (map (fun x => x - y)%Q u)
       | _, _ => inl ValueError
       end.

Definition Qmin_list (x : Q) (v : list Q) : Q :=
  fold_left (fun m y => if Qltb y m then y else m) v x.
Definition Qmax_list (x : Q) (v : list Q) : Q :=
  fold_left (fun m y => if Qltb m y then y else m) v x.

(** [v.min()] and [v.max()]: an empty array has none. *)
Definition np_min (v : list Q) : exn + Q :=
  match v with [] => inl ValueError | x :: v' => inr (Qmin_list x v') end.

Definition np_max (v : list Q) : exn + Q :=
  match v with [] => inl ValueError | x :: v' => inr (Qmax_list x v') end.

(** [np.argmax(v)]: the first index of the largest element. *)
Fixpoint argmax_from (best : Q) (ibest i : nat) (v : list Q) : nat :=
  match v with
  | [] => ibest
  | x :: v' => if Qltb best x then argmax_from x i (S i) v'
               else argmax_from best ibest (S i) v'
  end.

Definition np_argmax (v : list Q) : exn + nat :=
  match v with [] => inl ValueError | x :: v' => inr (argmax_from x 0 1 v') end.

(** [x / d] where [d] is an element of an array. *)
Definition np_true_divide (x d : Q) : npfloat :=
  if Qeq_bool d 0
  then (if Qeq_bool x 0 then NaN else Inf (Qltb 0 x))
  else Finite (x / d).

(** [s > t] *)
Definition np_greater (s : npfloat) (t : Q) : bool :=
  match s with
  | Finite q => Qltb t q
  | Inf positive => positive
  | NaN => false
  end.

(** [p + s] *)
Definition np_add (p : Q) (s : npfloat) : npfloat :=
  match s with Finite q => Finite (p + q) | _ => s end.

(** [np.arange(start, stop, step)] *)
Definition np_arange (start stop step : Q) : exn + list Q :=
  if Qeq_bool step 0 then inl ZeroDivisionError
  else inr (map (fun i => start + inject_Z (Z.of_nat i) * step)%Q
                (seq 0 (Z.to_nat (Qceiling ((stop - start) / step))))).

(** ** Results and the error monad of pure NumPy and dictionary code *)

#[global] Instance result_ret : MRet (sum exn) := fun _ x => inr x.
#[global] Instance result_fmap : FMap (sum exn) :=
  fun _ _ f r => match r with inl e => inl e | inr x => inr (f x) end.
#[global] Instance result_bind : MBind (sum exn) :=
  fun _ _ f r => match r with inl e => inl e | inr x => f x end.

(** [for j, x in enumerate(l)] with a body that may raise. *)
Definition for_enumerate {A S} (l : list A) (body : S -> nat -> A -> exn + S)
    (init : S) : exn + S :=
  fold_left (fun acc jx => s ← acc; body s jx.1 jx.2) (imap pair l) (inr init).

(** ** The object of class [AlignmentLogic] *)

Record constraint : Type :=
  Constraint { pos_min : Q; pos_max : Q; pos_step : Q }.

Inductive OptimizationMethod : Type := raster | gradient.

(** [_optimization_method] is a string when it comes from the status
    variable's default and an enum member once set through the property. *)
Inductive method_value : Type :=
  | MethodStr (s : string)
  | MethodEnum (m : OptimizationMethod).

(** The slots that get connected to [_scanner_signal]. *)
Inductive slot : Type := slot_raster_scan | slot_gradient_descent.

(** [_points]: not an attribute before the first run, a two-dimensional array
    in a raster run, a Python list in a gradient run. *)
Inductive points_value : Type :=
  | PointsUnset
  | PointsArray (a : list (list Q))
  | PointsList (l : list pyval).

(** [_scan]: [None], a Python list while sampling, an array after the fit. *)
Inductive samples_value : Type :=
  | SamplesNone
  | SamplesList (l : list Q)
  | SamplesArray (a : list Q).

(** [_scan_pos]: [None], a list of lists while sampling, an array after. *)
Inductive positions_value : Type :=
  | PositionsNone
  | PositionsList (l : list (list Q))
  | PositionsArray (a : list (list Q)).

Record logic : Type := Logic {
  _constraints : dict constraint;
  _axis_list : list key;
  _optimized_axis : list key;
  _axis_range : dict (list Q);
  _scan_delay : Q;
  _optimization_method : method_value;
  _alignments : gmap string (dict Q);
  _motor_positions : dict Q;
  _points : points_value;
  _scan : samples_value;
  _scan_pos : positions_value;
  point_index : option nat;
  _scanner_signal : list slot
}.

Definition set_axis_range (v : dict (list Q)) (s : logic) : logic :=
  Logic (_constraints s) (_axis_list s) (_optimized_axis s) v (_scan_delay s)
        (_optimization_method s) (_alignments s) (_motor_positions s) (_points s)
        (_scan s) (_scan_pos s) (point_index s) (_scanner_signal s).

Definition set_optimization_method (v : method_value) (s : logic) : logic :=
  Logic (_constraints s) (_axis_list s) (_optimized_axis s) (_axis_range s)
        (_scan_delay s) v (_alignments s) (_motor_positions s) (_points s)
        (_scan s) (_scan_pos s) (point_index s) (_scanner_signal s).

Definition set_alignments (v : gmap string (dict Q)) (s : logic) : logic :=
  Logic (_constraints s) (_axis_list s) (_optimized_axis s) (_axis_range s)
        (_scan_delay s) (_optimization_method s) v (_motor_positions s) (_points s)
        (_scan s) (_scan_pos s) (point_index s) (_scanner_signal s).

Definition set_motor_positions (v : dict Q) (s : logic) : logic :=
  Logic (_constraints s) (_axis_list s) (_optimized_axis s) (_axis_range s)
        (_scan_delay s) (_optimization_method s) (_alignments s) v (_points s)
        (_scan s) (_scan_pos s) (point_index s) (_scanner_signal s).

Definition set_points (v : points_value) (s : logic) : logic :=
  Logic (_constraints s) (_axis_list s) (_optimized_axis s) (_axis_range s)
        (_scan_delay s) (_optimization_method s) (_alignments s)
        (_motor_positions s) v (_scan s) (_scan_pos s) (point_index s)
        (_scanner_signal s).

Definition set_scan (v : samples_value) (s : logic) : logic :=
  Logic (_constraints s) (_axis_list s) (_optimized_axis s) (_axis_range s)
        (_scan_delay s) (_optimization_method s) (_alignments s)
        (_motor_positions s) (_points s) v (_scan_pos s) (point_index s)
        (_scanner_signal s).

Definition set_scan_pos (v : positions_value) (s : logic) : logic :=
  Logic (_constraints s) (_axis_list s) (_optimized_axis s) (_axis_range s)
        (_scan_delay s) (_optimization_method s) (_alignments s)
        (_motor_positions s) (_points s) (_scan s) v (point_index s)
        (_scanner_signal s).

Definition set_point_index (v : option nat) (s : logic) : logic :=
  Logic (_constraints s) (_axis_list s) (_optimized_axis s) (_axis_range s)
        (_scan_delay s) (_optimization_method s) (_alignments s)
        (_motor_positions s) (_points s) (_scan s) (_scan_pos s) v
        (_scanner_signal s).

Definition set_scanner_signal (v : list slot) (s : logic) : logic :=
  Logic (_constraints s) (_axis_list s) (_optimized_axis s) (_axis_range s)
        (_scan_delay s) (_optimization_method s) (_alignments s)
        (_motor_positions s) (_points s) (_scan s) (_scan_pos s) (point_index s) v.

(** ** The hardware behind the connectors

    [MotorInterface] and [ProcessInterface] as the logic uses them.  [H] is
    the state of the instruments; every call may change it. *)

Class MotorInterface (H : Type) : Type := {
  get_status : list key -> H -> H * dict bool;
  get_pos : list key -> H -> H * dict Q;
  move_abs : dict Q -> H -> H * dict Q
}.

Class ProcessInterface (H : Type) : Type := {
  get_process_value : H -> H * Q
}.

(** ** The fitting library

    [lmfit.Parameters.add] records a named parameter with its bounds and
    initial value; [lmfit.minimize] receives the parameters and, through the
    objective [gaussian_multi], the scanned positions, the scanned values
    and the axes.  It returns the fitted value of every parameter, or
    raises. *)

Inductive parameter_name : Type :=
  | par_A | par_B
  | par_x (j : nat)
  | par_w (j : nat).

#[global] Instance parameter_name_eq_dec : EqDecision parameter_name.
Proof. solve_decision. Defined.

Record parameter : Type := MkParameter {
  par_name : parameter_name;
  par_min : option Q;
  par_max : option Q;
  par_value : Q
}.

Class Lmfit : Type := {
  minimize : list parameter -> list (list Q) -> list Q -> list key ->
             exn + list (parameter_name * Q)
}.

(** ** The world: the object, the instruments, and what was sent to them *)

Record world (H : Type) : Type := World {
  self : logic;
  hardware : H;
  moves : list (dict Q);      (* the arguments of every [move_abs], in order *)
  emitted : nat               (* how many times [_scanner_signal] was emitted *)
}.
Arguments World {H}.
Arguments self {H}.
Arguments hardware {H}.
Arguments moves {H}.
Arguments emitted {H}.

Section Methods.
Context {H : Type} `{!MotorInterface H} `{!ProcessInterface H} `{!Lmfit}.

(** A method: it transforms the world and returns or raises. *)
Definition M (A : Type) : Type := world H -> world H * (exn + A).

#[global] Instance M_ret : MRet M := fun _ x w => (w, inr x).
#[global] Instance M_bind : MBind M :=
  fun _ _ f c w => match c w with
                   | (w', inr x) => f x w'
                   | (w', inl e) => (w', inl e)
                   end.

Definition raise {A} (e : exn) : M A := fun w => (w, inl e).
Definition lift {A} (r : exn + A) : M A := fun w => (w, r).

(** [self.f] and [self.f = v] *)
Definition attr {A} (f : logic -> A) : M A := fun w => (w, inr (f (self w))).
Definition assign (f : logic -> logic) : M unit :=
  fun w => (World (f (self w)) (hardware w) (moves w) (emitted w), inr tt).

(** [self.motor().get_status(axes)], [.get_pos(axes)], [.move_abs(d)] and
    [self.counter().get_process_value()] *)
Definition motor_get_status (axes : list key) : M (dict bool) :=
  fun w => let r := get_status axes (hardware w) in
           (World (self w) r.1 (moves w) (emitted w), inr r.2).

Definition motor_get_pos (axes : list key) : M (dict Q) :=
  fun w => let r := get_pos axes (hardware w) in
           (World (self w) r.1 (moves w) (emitted w), inr r.2).

Definition motor_move_abs (d : dict Q) : M (dict Q) :=
  fun w => let r := move_abs d (hardware w) in
           (World (self w) r.1 (moves w ++ [d]) (emitted w), inr r.2).

Definition counter_get_process_value : M Q :=
  fun w => let r := get_process_value (hardware w) in
           (World (self w) r.1 (moves w) (emitted w), inr r.2).

(** [_scanner_signal.connect(slot)], [.disconnect()] and [.emit()].  A
    slot may be connected several times; [disconnect()] drops every
    connection. *)
Definition signal_connect (sl : slot) : M unit :=
  assign (fun s => set_scanner_signal (_scanner_signal s ++ [sl]) s).
Definition signal_disconnect : M unit := assign (set_scanner_signal []).
Definition signal_emit : M unit :=
  fun w => (World (self w) (hardware w) (moves w) (S (emitted w)), inr tt).

(** [time.sleep(delay)] refuses a negative delay. *)
Definition time_sleep (delay : Q) : M unit :=
  if Qltb delay 0 then raise ValueError else mret tt.

(** [self.point_index] *)
Definition read_point_index : M nat :=
  i ← attr point_index;
  match i with Some i => mret i | None => raise AttributeError end.

(** [np.all(list of statuses)] *)
Definition np_all (l : list bool) : bool := forallb id l.

(** *** Property setters *)

(** The three checks of the [axis_range] setter, lines 119 to 133: the
    requested minimum, maximum and step after replacement. *)
Definition axis_range_bounds (c : constraint) (request : Q * Q * Q) : Q * Q * Q :=
  let '(ax_min, ax_max, ax_step) := request in
  let ax_min :=
    if Qltb ax_min (pos_min c) || Qltb (pos_max c) ax_min || negb (truthy ax_min)
    then pos_min c else ax_min in
  let ax_max :=
    if Qltb (pos_max c) ax_max || Qltb ax_max (pos_min c) || negb (truthy ax_max)
    then pos_max c else ax_max in
  let ax_step :=
    if Qltb ax_step (pos_step c) || Qltb (ax_max - ax_min) ax_step
       || negb (truthy ax_step)
    then pos_step c else ax_step in
  (ax_min, ax_max, ax_step).

Definition axis_range_setter (axis_dict : dict (Q * Q * Q)) : M unit :=
  fold_left (fun before item =>
     before;;
     cs ← attr _constraints;
     c ← lift (getitem cs item.1);
     let '(ax_min, ax_max, ax_step) := axis_range_bounds c item.2 in
     arr ← lift (np_arange ax_min ax_max ax_step);
     assign (fun s => set_axis_range (dict_set (_axis_range s) item.1 arr) s))
    axis_dict (mret tt).

Definition optimization_method_setter (method : method_value) : M unit :=
  let method :=
    match method with
    | MethodStr s => if String.eqb s "raster" then MethodEnum raster
                     else if String.eqb s "gradient" then MethodEnum gradient
                     else method
    | MethodEnum _ => method
    end in
  match method with
  | MethodEnum _ => assign (set_optimization_method method)
  | MethodStr _ => mret tt
  end.

Definition motor_positions_setter (position_dict : dict Q) : M unit :=
  _ ← motor_move_abs position_dict;
  axes ← attr _axis_list;
  pos ← motor_get_pos axes;
  assign (set_motor_positions pos).

(** *** The alignment store *)

Definition add_alignment (name : string) : M unit :=
  assign (fun s => set_alignments (<[name := _motor_positions s]> (_alignments s)) s).

Definition retrieve_alignment (name : string) : M unit :=
  al ← attr _alignments;
  match al !! name with
  | None => mret tt
  | Some d => pos ← motor_move_abs d; assign (set_motor_positions pos)
  end.

(** *** Sampling one point *)

(** [self._points[i, j]] *)
Definition points_item (p : points_value) (i j : nat) : exn + Q :=
  match p with
  | PointsUnset => inl AttributeError
  | PointsList _ => inl TypeError
  | PointsArray a => item2 a (Z.of_nat i) j
  end.

(** [self._points.shape[0]] *)
Definition points_shape0 (p : points_value) : exn + nat :=
  match p with
  | PointsArray a => inr (length a)
  | _ => inl AttributeError
  end.

Definition scan_point (i : nat) : M unit :=
  axes ← attr _optimized_axis;
  pts ← attr _points;
  param_dict ← lift (for_enumerate axes
                       (fun d j axis => v ← points_item pts i j; mret (dict_set d axis v))
                       []);
  _ ← motor_move_abs param_dict;
  delay ← attr _scan_delay;
  time_sleep delay;;
  scan ← attr _scan;
  match scan with
  | SamplesList l =>
      v ← counter_get_process_value;
      assign (set_scan (SamplesList (l ++ [v])))
  | _ => raise AttributeError
  end;;
  scan_pos ← attr _scan_pos;
  match scan_pos with
  | PositionsList l =>
      pos ← motor_get_pos axes;
      assign (set_scan_pos (PositionsList (l ++ [dict_values pos])))
  | _ => raise AttributeError
  end.

(** *** The raster scan *)

(** Line 273: the grid over the ranges of the optimized axes. *)
Definition raster_grid : M unit :=
  axes ← attr _optimized_axis;
  axis_range ← attr _axis_range;
  ranges ← lift (mapM (getitem axis_range) axes);
  pts ← lift (raster_points ranges);
  assign (set_points (PointsArray pts)).

(** [np.array(self._scan_pos)] and [np.nan_to_num(np.array(self._scan))];
    rationals hold no NaN to replace, and [None] stays what it is. *)
Definition np_array_positions (p : positions_value) : exn + positions_value :=
  match p with
  | PositionsList l => a ← np_array_rows l; mret (PositionsArray a)
  | _ => inr p
  end.

Definition np_array_samples (s : samples_value) : samples_value :=
  match s with
  | SamplesList l => SamplesArray l
  | _ => s
  end.

(** Lines 286 to 294: the parameters handed to the fit.  [a] is [_scan_pos]
    and [v] is [_scan], both arrays by now. *)
Definition fit_parameters (axes : list key) (a : list (list Q)) (v : list Q)
    : exn + list parameter :=
  imax ← np_argmax v;
  max_pos ← py_index a (Z.of_nat imax);
  vmin ← np_min v;
  vmax ← np_max v;
  for_enumerate axes
    (fun params j axis =>
       col ← column a j;
       xmin ← np_min col;
       xmax ← np_max col;
       xval ← py_index max_pos (Z.of_nat j);
       steps ← np_subtract (slice_odd col) (slice_even col);
       wmin ← np_min steps;
       first ← item2 a 0 j;
       last ← item2 a (-1) j;
       mret (params ++
             [MkParameter (par_x j) (Some xmin) (Some xmax) xval;
              MkParameter (par_w j) (Some wmin) (Some (first - last)%Q)
                          ((first - last) / 10)%Q]))
    [MkParameter par_A (Some vmin) None vmax;
     MkParameter par_B (Some vmin) None vmin].

(** The same lines when [_scan_pos] or [_scan] is still [None]. *)
Definition fit_parameters_of (axes : list key) (sp : positions_value)
    (sc : samples_value) : exn + (list parameter * list (list Q) * list Q) :=
  match sp, sc with
  | PositionsArray a, SamplesArray v =>
      params ← fit_parameters axes a v; mret (params, a, v)
  | PositionsArray a, _ => _ ← py_index a 0; inl AttributeError
  | _, SamplesArray v => _ ← np_argmax v; inl IndexError
  | _, _ => inl IndexError
  end.

(** Lines 297 to 299: the fitted centre of each axis,
    [fit_result.params["x{}".format(j)]]. *)
Definition fitted_position (axes : list key) (fit_result : list (parameter_name * Q))
    : exn + dict Q :=
  for_enumerate axes
    (fun d j axis =>
       x ← match list_find (fun p => p.1 = par_x j) fit_result with
           | Some (_, p) => inr p.2
           | None => inl KeyError
           end;
       mret (dict_set d axis x))
    [].

(** Lines 282 to 302: the branch taken once every point has been visited. *)
Definition raster_fit : M unit :=
  signal_disconnect;;
  sp ← attr _scan_pos;
  sp ← lift (np_array_positions sp);
  assign (set_scan_pos sp);;
  sc ← attr _scan;
  assign (set_scan (np_array_samples sc));;
  sc ← attr _scan;
  axes ← attr _optimized_axis;
  '(params, a, v) ← lift (fit_parameters_of axes sp sc);
  fit_result ← lift (minimize params a v axes);
  position_dict ← lift (fitted_position axes fit_result);
  _ ← motor_move_abs position_dict;
  all_axes ← attr _axis_list;
  pos ← motor_get_pos all_axes;
  motor_positions_setter pos.

Definition raster_scan : M unit :=
  axes ← attr _optimized_axis;
  status ← motor_get_status axes;
  if negb (np_all (dict_values status)) then signal_emit
  else
    i ← read_point_index;
    (if i =? 0
     then raster_grid;;
          assign (set_scan_pos (PositionsList []));;
          assign (set_scan (SamplesList []))
     else mret tt);;
    pts ← attr _points;
    n ← lift (points_shape0 pts);
    if i <? n
    then scan_point i;;
         assign (set_point_index (Some (i + 1)));;
         signal_emit
    else raster_fit.

(** *** The gradient stepper *)

(** An element of [_scan_pos]: a Python list while [_scan_pos] is a list of
    lists, a row of the array otherwise. *)
Inductive row_value : Type := RowList (l : list Q) | RowArray (a : list Q).

Definition row_items (r : row_value) : list Q :=
  match r with RowList l => l | RowArray a => a end.

(** [self._scan[i]] and [self._scan_pos[i]] *)
Definition samples_index (s : samples_value) (i : Z) : exn + Q :=
  match s with
  | SamplesNone => inl TypeError
  | SamplesList l => py_index l i
  | SamplesArray a => py_index a i
  end.

Definition positions_index (p : positions_value) (i : Z) : exn + row_value :=
  match p with
  | PositionsNone => inl TypeError
  | PositionsList l => RowList <$> py_index l i
  | PositionsArray a => RowArray <$> py_index a i
  end.

(** [p - q] on two elements of [_scan_pos]: Python lists do not subtract. *)
Definition row_subtract (p q : row_value) : exn + list Q :=
  match p, q with
  | RowList _, RowList _ => inl TypeError
  | _, _ => np_subtract (row_items p) (row_items q)
  end.

(** Lines 331 and 332: the slopes between sample [i] and the one before. *)
Definition slopes_of (sc : samples_value) (sp : positions_value) (i : nat)
    : exn + list npfloat :=
  v1 ← samples_index sc (Z.of_nat i);
  v0 ← samples_index sc (Z.of_nat i - 1);
  p1 ← positions_index sp (Z.of_nat i);
  p0 ← positions_index sp (Z.of_nat i - 1);
  dp ← row_subtract p1 p0;
  mret (map (np_true_divide (v1 - v0)) dp).

(** Lines 325 and 326: the two initial points. *)
Definition gradient_first_points : M unit :=
  axes ← attr _optimized_axis;
  mp ← attr _motor_positions;
  here ← lift (for_enumerate axes
                 (fun l i axis =>
                    p ← getitem mp (KInt (Z.of_nat i));
                    mret (l ++ [PyFloat (Finite p)]))
                 []);
  assign (set_points (PointsList here));;
  axis_range ← attr _axis_range;
  there ← lift (for_enumerate axes
                  (fun l i axis =>
                     p ← getitem mp (KInt (Z.of_nat i));
                     r ← getitem axis_range axis;
                     r1 ← py_index r 1;
                     r0 ← py_index r 0;
                     mret (l ++ [PyFloat (Finite (p + r1 - r0))]))
                  []);
  assign (set_points (PointsList (here ++ [PyList there]))).

(** [self._points.append(new_points)] *)
Definition points_append (new_points : list pyval) : M unit :=
  pts ← attr _points;
  match pts with
  | PointsList l => assign (set_points (PointsList (l ++ [PyList new_points])))
  | _ => raise AttributeError
  end.

Definition gradient_descent : M unit :=
  axes ← attr _optimized_axis;
  status ← motor_get_status axes;
  if negb (np_all (dict_values status)) then signal_emit
  else
    i ← read_point_index;
    (if i =? 0
     then gradient_first_points;;
          assign (set_scan_pos (PositionsList []));;
          assign (set_scan (SamplesList []))
     else mret tt);;
    scan_point i;;
    sc ← attr _scan;
    sp ← attr _scan_pos;
    slopes ← lift (slopes_of sc sp i);
    if forallb (fun s => np_greater s (1 # 1000)) slopes
    then
      new_points ← lift (for_enumerate axes
                           (fun l j axis =>
                              row ← positions_index sp (Z.of_nat i);
                              p ← py_index (row_items row) (Z.of_nat j);
                              s ← py_index slopes (Z.of_nat j);
                              mret (l ++ [PyFloat (np_add p s)]))
                           []);
      points_append new_points;;
      assign (set_point_index (Some (i + 1)));;
      signal_emit
    else signal_disconnect.

(** *** Starting and stopping *)

(** [self._optimization_method == name]: an enum member never equals a
    string. *)
Definition method_is (m : method_value) (name : string) : bool :=
  match m with
  | MethodStr s => String.eqb s name
  | MethodEnum _ => false
  end.

Definition start_optimization : M unit :=
  assign (set_point_index (Some 0));;
  m ← attr _optimization_method;
  if method_is m "raster"
  then signal_connect slot_raster_scan;; raster_scan
  else if method_is m "gradient"
  then signal_connect slot_gradient_descent;; gradient_descent
  else mret tt.

Definition stop_optimization : M unit :=
  i ← read_point_index;
  pts ← attr _points;
  n ← lift (points_shape0 pts);
  if i <? n
  then signal_disconnect;;
       mp ← attr _motor_positions;
       _ ← motor_move_abs mp;
       mret tt
  else mret tt.

(** One tick: the slot that the signal delivers. *)
Definition run_slot (sl : slot) : M unit :=
  match sl with
  | slot_raster_scan => raster_scan
  | slot_gradient_descent => gradient_descent
  end.

(** The world after a method, whether it returned or raised. *)
Definition exec {A} (c : M A) (w : world H) : world H := (c w).1.

(** The world after the ticks [sls], one after the other. *)
Definition run_slots (sls : list slot) (w : world H) : world H :=
  fold_left (fun w sl => exec (run_slot sl) w) sls w.

End Methods.

(** ** A bench for concrete runs

    A simulated motor that reaches every requested position and answers
    busy to its first [bench_busy] status queries, a counter whose value is
    the sum of the positions, and a solver that returns its initial guess. *)

Record bench : Type := Bench { bench_pos : dict Q; bench_busy : nat }.

Definition bench_motor : MotorInterface bench := {|
  get_status axes b :=
    match bench_busy b with
    | 0 => (b, fold_left (fun d a => dict_set d a true) axes [])
    | S n => (Bench (bench_pos b) n, fold_left (fun d a => dict_set d a false) axes [])
    end;
  get_pos axes b :=
    (b, fold_left (fun d a => dict_set d a (default 0%Q (dict_get (bench_pos b) a))) axes []);
  move_abs d b :=
    (Bench (fold_left (fun p kv => dict_set p kv.1 kv.2) d (bench_pos b)) (bench_busy b), d)
|}.

Definition bench_counter : ProcessInterface bench := {|
  get_process_value b := (b, fold_left Qplus (dict_values (bench_pos b)) 0%Q)
|}.

Definition bench_lmfit : Lmfit := {|
  minimize params _ _ _ := inr (map (fun p => (par_name p, par_value p)) params)
|}.

Definition SHG : key := KStr "SHG".
Definition THG : key := KStr "THG".
Definition DC : key := KStr "DC".

(** The object as [on_activate] leaves it on a motor with the axes SHG and
    THG, with short ranges. *)
Definition bench_logic : logic := {|
  _constraints := [(SHG, Constraint 10 3096 1); (THG, Constraint 32 3106 1)];
  _axis_list := [SHG; THG];
  _optimized_axis := [SHG; THG];
  _axis_range := [(SHG, [10; 11]%Q); (THG, [32; 33]%Q)];
  _scan_delay := 0;
  _optimization_method := MethodStr "raster";
  _alignments := ∅;
  _motor_positions := [(SHG, 10%Q); (THG, 32%Q)];
  _points := PointsUnset;
  _scan := SamplesNone;
  _scan_pos := PositionsNone;
  point_index := None;
  _scanner_signal := []
|}.

Definition bench_world : world bench :=
  World bench_logic (Bench [(SHG, 10%Q); (THG, 32%Q)] 0) [] 0.

(** ** Notions used in the statements *)

(** The element of each list at the index given for it. *)
Definition pick (xs : list (list Q)) (idx : list nat) : list Q :=
  zip_with (fun x i => nth i x 0%Q) xs idx.

(** [FitError] and [AlreadyRunning] are names of the specification; the
    code raises the exceptions of Python, NumPy and the fitting library. *)
Definition named_error (e : exn) : Prop := e = FitError \/ e = AlreadyRunning.

(** A result that is not one of the named errors. *)
Definition builtin {A} (r : exn + A) : Prop :=
  forall e, r = inl e -> ~ named_error e.

Section Notions.
Context {H : Type} `{!MotorInterface H} `{!ProcessInterface H} `{!Lmfit}.

(** [post R c]: the world after [c], returned or raised, is related by [R]
    to the world before. *)
Definition post (R : relation (world H)) {A} (c : @M H A) : Prop :=
  forall w, R w (c w).1.

(** The relation that looks at one field of the object. *)
Definition same {A} (f : logic -> A) : relation (world H) :=
  fun w w' => f (self w') = f (self w).

(** Between two worlds of one run: a disconnected signal stays so, and the
    cached position is the same unless the signal got disconnected. *)
Definition run_frame : relation (world H) :=
  fun w w' =>
    (_scanner_signal (self w) = [] -> _scanner_signal (self w') = [])
    /\ (_motor_positions (self w') = _motor_positions (self w)
        \/ _scanner_signal (self w') = []).

(** The positioner answers busy, for some axis of [axes], to each of the
    status queries of the ticks [sls]. *)
Fixpoint busy_during (sls : list slot) (axes : list key) (h : H) : Prop :=
  match sls with
  | [] => True
  | _ :: sls' =>
      np_all (dict_values (get_status axes h).2) = false
      /\ busy_during sls' axes (get_status axes h).1
  end.

(** What may happen between a save and a recall: moves through the
    [motor_positions] setter, recalls of any alignment, and whole
    optimization runs. *)
Inductive operation : Type :=
  | op_move (position_dict : dict Q)
  | op_recall (name : string)
  | op_start
  | op_tick (sl : slot)
  | op_stop.

Definition operate (o : operation) : M unit :=
  match o with
  | op_move d => motor_positions_setter d
  | op_recall name => retrieve_alignment name
  | op_start => start_optimization
  | op_tick sl => run_slot sl
  | op_stop => stop_optimization
  end.

(** The world in which [start_optimization] runs its first tick: the point
    index is 0 and the tick [sl] has one more connection. *)
Definition started (sl : slot) (w : world H) : world H :=
  World (set_scanner_signal (_scanner_signal (self w) ++ [sl])
           (set_point_index (Some 0) (self w)))
        (hardware w) (moves w) (emitted w).

(** A method whose exceptions are all built-in ones. *)
Definition raises_builtin {A} (c : @M H A) : Prop := forall w, builtin (c w).2.

(** The fitting library raises its own exceptions only. *)
Definition solver_builtin : Prop :=
  forall params a v axes, builtin (minimize params a v axes).

End Notions.

Section BenchWorlds.
#[local] Existing Instance bench_motor.
#[local] Existing Instance bench_counter.
#[local] Existing Instance bench_lmfit.

(** The same object with a third axis. *)
Definition bench_world3 : world bench :=
  World (Logic [(SHG, Constraint 10 3096 1); (THG, Constraint 32 3106 1);
                (DC, Constraint 4 138 1)]
               [SHG; THG; DC] [SHG; THG; DC]
               [(SHG, [10; 11]%Q); (THG, [32; 33]%Q); (DC, [4; 5]%Q)]
               0 (MethodStr "raster") ∅
               [(SHG, 10%Q); (THG, 32%Q); (DC, 4%Q)]
               PointsUnset SamplesNone PositionsNone None [])
        (Bench [(SHG, 10%Q); (THG, 32%Q); (DC, 4%Q)] 0) [] 0.

(** One axis with a range of a single position. *)
Definition bench_world1 : world bench :=
  World (Logic [(SHG, Constraint 10 3096 1)] [SHG] [SHG] [(SHG, [10%Q])]
               0 (MethodStr "raster") ∅ [(SHG, 10%Q)]
               PointsUnset SamplesNone PositionsNone None [])
        (Bench [(SHG, 10%Q)] 0) [] 0.

(** The gradient method, as the status variable would hold it. *)
Definition bench_world_gradient : world bench :=
  World (set_optimization_method (MethodStr "gradient") bench_logic)
        (Bench [(SHG, 10%Q); (THG, 32%Q)] 0) [] 0.

(** A motor that is busy for its next three status queries. *)
Definition bench_world_busy : world bench :=
  World bench_logic (Bench [(SHG, 10%Q); (THG, 32%Q)] 3) [] 0.

(** A raster run on two axes after its first two points. *)
Definition bench_mid_run : world bench :=
  run_slots [slot_raster_scan] (exec start_optimization bench_world).

(** The same run after its fourth and last point. *)
Definition bench_completed : world bench :=
  run_slots [slot_raster_scan; slot_raster_scan; slot_raster_scan]
            (exec start_optimization bench_world).

(** The one-point run after its only point. *)
Definition bench_completed1 : world bench := exec start_optimization bench_world1.

End BenchWorlds.

(** ** Activation and the remaining property setters *)

(** [MotorInterface.get_constraints], with the three entries of each axis
    that the logic reads. *)
Class MotorConstraints (H : Type) : Type := {
  get_constraints : H -> H * dict constraint
}.

Definition set_constraints (v : dict constraint) (s : logic) : logic :=
  Logic v (_axis_list s) (_optimized_axis s) (_axis_range s) (_scan_delay s)
        (_optimization_method s) (_alignments s) (_motor_positions s) (_points s)
        (_scan s) (_scan_pos s) (point_index s) (_scanner_signal s).

Definition set_axis_list (v : list key) (s : logic) : logic :=
  Logic (_constraints s) v (_optimized_axis s) (_axis_range s) (_scan_delay s)
        (_optimization_method s) (_alignments s) (_motor_positions s) (_points s)
        (_scan s) (_scan_pos s) (point_index s) (_scanner_signal s).

Definition set_optimized_axis (v : list key) (s : logic) : logic :=
  Logic (_constraints s) (_axis_list s) v (_axis_range s) (_scan_delay s)
        (_optimization_method s) (_alignments s) (_motor_positions s) (_points s)
        (_scan s) (_scan_pos s) (point_index s) (_scanner_signal s).

Definition set_scan_delay (v : Q) (s : logic) : logic :=
  Logic (_constraints s) (_axis_list s) (_optimized_axis s) (_axis_range s) v
        (_optimization_method s) (_alignments s) (_motor_positions s) (_points s)
        (_scan s) (_scan_pos s) (point_index s) (_scanner_signal s).

(** [not x] on a list or a dictionary; an unset status variable, [None], is
    held as the empty one, which is as false. *)
Definition is_empty {A} (l : list A) : bool :=
  match l with [] => true | _ => false end.

(** [any(x in known for x in l)] *)
Definition any_in (l known : list key) : bool :=
  existsb (fun x => bool_decide (x ∈ known)) l.

Section MoreMethods.
Context {H : Type} `{!MotorInterface H} `{!ProcessInterface H} `{!Lmfit}
        `{!MotorConstraints H}.

Definition motor_get_constraints : M (dict constraint) :=
  fun w => let r := get_constraints (hardware w) in
           (World (self w) r.1 (moves w) (emitted w), inr r.2).

(** Lines 94 to 97: the full range of every axis of the hardware. *)
Definition default_axis_range (constraints : dict constraint) : @M H unit :=
  assign (set_axis_range []);;
  fold_left (fun before item =>
     before;;
     arr ← lift (np_arange (pos_min item.2) (pos_max item.2) (pos_step item.2));
     assign (fun s => set_axis_range (dict_set (_axis_range s) item.1 arr) s))
    constraints (mret tt).

(** The creation of the loop timer, lines 99 and 100, leaves no trace in
    the object as the methods read it. *)
Definition on_activate : M unit :=
  constraints ← motor_get_constraints;
  assign (set_constraints constraints);;
  axis_list ← attr _axis_list;
  (if is_empty axis_list
   then assign (set_axis_list (map fst constraints)) else mret tt);;
  optimized_axis ← attr _optimized_axis;
  (if is_empty optimized_axis
   then axis_list ← attr _axis_list; assign (set_optimized_axis axis_list)
   else mret tt);;
  alignments ← attr _alignments;
  (if size alignments =? 0 then assign (set_alignments ∅) else mret tt);;
  motor_positions ← attr _motor_positions;
  (if is_empty motor_positions
   then axis_list ← attr _axis_list;
        pos ← motor_get_pos axis_list;
        assign (set_motor_positions pos)
   else mret tt);;
  axis_range ← attr _axis_range;
  (if is_empty axis_range
   then constraints ← attr _constraints; default_axis_range constraints
   else mret tt).

Definition optimized_axis_setter (axis_list : list key) : @M H unit :=
  known ← attr _axis_list;
  if any_in axis_list known then assign (set_optimized_axis axis_list) else mret tt.

Definition axis_list_setter (axis_list : list key) : @M H unit :=
  constraints ← attr _constraints;
  if any_in axis_list (map fst constraints)
  then assign (set_axis_list axis_list) else mret tt.

(** A negative delay is warned about and stored all the same. *)
Definition scan_delay_setter (delay : Q) : @M H unit :=
  assign (set_scan_delay delay).

End MoreMethods.

(** ** The Harmonixx positioner

    [src/qudi/hardware/motor/ape_harmonixx.py], class [Harmonixx]: the
    methods that do not talk to the device.  Those that do, [get_pos] and
    [move_abs], are left to a simulated device. *)

Definition WP : key := KStr "WP".
Definition WAVELENGTH : key := KStr "WAVELENGTH".

(** [self._axis], line 74 *)
Definition harmonixx_axis : list key := [SHG; WP; DC; THG; WAVELENGTH].

(** [Harmonixx.get_status], lines 248 to 265 *)
Definition harmonixx_get_status (param_list : list key) : dict bool :=
  let param_list := if is_empty param_list then harmonixx_axis else param_list in
  fold_left (fun status_dict label => dict_set status_dict label true) param_list [].

(** [Harmonixx.get_constraints], lines 83 to 176, with the entries that the
    logic reads. *)
Definition harmonixx_get_constraints : dict constraint :=
  [(SHG, Constraint 10 3096 1); (DC, Constraint 4 138 1);
   (WP, Constraint 204 4190 1); (THG, Constraint 32 3106 1);
   (WAVELENGTH, Constraint 700 1000 1)].

(** The module on a device [D] that is known by what it answers. *)
Definition harmonixx_motor {D : Type}
    (device_get_pos : list key -> D -> D * dict Q)
    (device_move_abs : dict Q -> D -> D * dict Q) : MotorInterface D := {|
  get_status param_list d := (d, harmonixx_get_status param_list);
  get_pos := device_get_pos;
  move_abs := device_move_abs
|}.

Definition harmonixx_constraints {D : Type} : MotorConstraints D := {|
  get_constraints d := (d, harmonixx_get_constraints)
|}.

(** The module on the simulated device of the bench. *)
Definition bench_harmonixx : MotorInterface bench :=
  harmonixx_motor (@get_pos bench bench_motor) (@move_abs bench bench_motor).

(** ** Notions used in the statements about whole runs *)

(** The dictionary that [scan_point] builds for a point: the coordinate
    [row[j]] under the [j]-th selected axis. *)
Definition param_dict_of (axes : list key) (row : list Q) : dict Q :=
  fold_left (fun d ja => dict_set d ja.2 (nth ja.1 row 0%Q)) (imap pair axes) [].

Section RunNotions.
Context {H : Type} `{!MotorInterface H}.

(** A positioner that never reports an axis busy, as the Harmonixx module,
    whose [get_status] answers [True] for every axis. *)
Definition never_busy : Prop :=
  forall (axes : list key) (h : H), np_all (dict_values (get_status axes h).2) = true.

(** In the world [w'] a raster scan over the points [pts] has sampled the
    first [k] of them, in order, since the world [w]. *)
Definition scanned (pts : list (list Q)) (k : nat) (w w' : world H) : Prop :=
  point_index (self w') = Some k
  /\ _points (self w') = PointsArray pts
  /\ _optimized_axis (self w') = _optimized_axis (self w)
  /\ _scan_delay (self w') = _scan_delay (self w)
  /\ _motor_positions (self w') = _motor_positions (self w)
  /\ _scanner_signal (self w') = _scanner_signal (self w) ++ [slot_raster_scan]
  /\ (exists values, _scan (self w') = SamplesList values /\ length values = k)
  /\ (exists positions,
        _scan_pos (self w') = PositionsList positions /\ length positions = k)
  /\ moves w' = moves w ++ map (param_dict_of (_optimized_axis (self w))) (take k pts)
  /\ emitted w' = emitted w + k.

End RunNotions.

(** An initial value that respects the bounds given with it. *)
Definition within_bounds (p : parameter) : Prop :=
  (forall m, par_min p = Some m -> (m <= par_value p)%Q)
  /\ (forall m, par_max p = Some m -> (par_value p <= m)%Q).

(** ** More worlds of the bench *)

Section MoreBenchWorlds.
#[local] Existing Instance bench_motor.
#[local] Existing Instance bench_counter.
#[local] Existing Instance bench_lmfit.

(** An object that has never been activated, without persisted settings,
    on a device at rest. *)
Definition bench_fresh : world bench :=
  World (Logic [] [] [] [] 0 (MethodStr "raster") ∅ []
               PointsUnset SamplesNone PositionsNone None [])
        (Bench [(SHG, 10%Q); (DC, 4%Q); (WP, 204%Q); (THG, 32%Q);
                (WAVELENGTH, 700%Q)] 0) [] 0.

(** The bench after a request that inverts the range of SHG. *)
Definition bench_world_inverted : world bench :=
  exec (axis_range_setter [(SHG, (30, 20, 1)%Q)]) bench_world.

(** The bench after a request for the range of SHG. *)
Definition bench_world_ranged : world bench :=
  exec (axis_range_setter [(SHG, (20, 30, 2)%Q)]) bench_world.

End MoreBenchWorlds.

(** * Properties *)

(** ** The raster grid *)

Section RasterGrid.

Implicit Types (sh : list nat) (xs ys : list (list Q)).

Lemma np_prod_app sh1 sh2 : np_prod (sh1 ++ sh2) = np_prod sh1 * np_prod sh2.
Proof.
  induction sh1 as [|d sh1 IH]; simpl; [lia|]. rewrite IH. lia.
Qed.

Lemma np_prod_rev sh : np_prod (rev sh) = np_prod sh.
Proof.
  induction sh as [|d sh IH]; simpl; [done|].
  rewrite np_prod_app, IH. simpl. lia.
Qed.

Lemma np_prod_swap01 sh : np_prod (swap01 sh) = np_prod sh.
Proof. destruct sh as [|a [|b t]]; simpl; lia. Qed.

Lemma length_unravel sh r : length (unravel sh r) = length sh.
Proof. induction sh; simpl; auto. Qed.

(** The index in an array with one more, fastest, axis. *)
Lemma unravel_snoc sh n q :
  unravel (sh ++ [n]) q = unravel sh (q / n) ++ [q mod n].
Proof.
  induction sh as [|d sh IH]; cbn [unravel app].
  - change (np_prod []) with 1. by rewrite Nat.div_1_r.
  - rewrite IH, np_prod_app. change (np_prod [n]) with (n * 1).
    by rewrite Nat.mul_1_r, Nat.Div0.div_div, (Nat.mul_comm n).
Qed.

(** Whole multiples of the size do not change the index. *)
Lemma unravel_add_mul sh m r : unravel sh (m * np_prod sh + r) = unravel sh r.
Proof.
  revert m r. induction sh as [|d sh IH]; intros m r; [done|].
  cbn [unravel]. change (np_prod (d :: sh)) with (d * np_prod sh).
  f_equal.
  - destruct (np_prod sh) as [|s] eqn:Es; [by rewrite !Nat.mul_0_r|].
    replace (m * (d * S s) + r) with (r + (m * d) * S s) by lia.
    rewrite Nat.div_add by lia.
    by rewrite Nat.Div0.mod_add.
  - replace (m * (d * np_prod sh) + r) with ((m * d) * np_prod sh + r) by lia.
    apply IH.
Qed.

Lemma seq_offset p b k : seq (b + k) p = map (fun r => b + r) (seq k p).
Proof.
  revert k. induction p as [|p IHp]; intros k; simpl; [done|].
  f_equal. rewrite <- IHp. f_equal. lia.
Qed.

Lemma seq_mul d p :
  seq 0 (d * p) = flat_map (fun i => map (fun r => i * p + r) (seq 0 p)) (seq 0 d).
Proof.
  induction d as [|d IH]; [done|].
  replace (S d * p) with (d * p + p) by lia.
  rewrite seq_app, IH, seq_S, flat_map_app. simpl.
  rewrite app_nil_r. f_equal.
  rewrite <- (seq_offset p (d * p) 0). by rewrite Nat.add_0_r.
Qed.


Lemma map_nth_seq (y : list Q) : map (fun i => nth i y 0%Q) (seq 0 (length y)) = y.
Proof.
  induction y as [|a y IH]; [done|]. simpl. f_equal.
  rewrite <- seq_shift, map_map. apply IH.
Qed.

(** Counting in C order through the index space enumerates the row-major
    product. *)
Lemma unravel_row_major ys :
  map (fun r => pick ys (unravel (map length ys) r)) (seq 0 (np_prod (map length ys)))
  = row_major_product ys.
Proof.
  induction ys as [|y ys IH]; [done|].
  simpl. rewrite seq_mul.
  rewrite <- (map_nth_seq y) at 2.
  rewrite flat_map_concat_map, concat_map, map_map.
  rewrite (flat_map_concat_map _ (map _ _)), map_map.
  f_equal. apply map_ext_in. intros i Hi. apply in_seq in Hi.
  rewrite map_map, <- IH, map_map.
  apply map_ext_in. intros r Hr. apply in_seq in Hr.
  unfold pick. simpl. f_equal.
  - rewrite Nat.div_add_l by lia. rewrite Nat.div_small by lia.
    rewrite Nat.add_0_r, Nat.mod_small by lia. done.
  - by rewrite unravel_add_mul.
Qed.

Lemma length_row_major_product ys :
  length (row_major_product ys) = np_prod (map length ys).
Proof.
  rewrite <- unravel_row_major. by rewrite length_map, length_seq.
Qed.


Lemma nth_map_seq (f : nat -> Q) n i d :
  i < n -> nth i (map f (seq 0 n)) d = f i.
Proof.
  intros Hi. apply nth_lookup_Some.
  change (map f (seq 0 n)) with (f <$> seq 0 n).
  by rewrite list_lookup_fmap, lookup_seq_lt.
Qed.

Lemma pick_seq xs idx :
  length idx = length xs ->
  map (fun k => nth (nth k idx 0) (nth k xs []) 0%Q) (seq 0 (length xs)) = pick xs idx.
Proof.
  revert idx. induction xs as [|x xs IH]; intros [|i idx] Hlen; try done.
  simpl in *. unfold pick. simpl. f_equal.
  rewrite <- seq_shift, map_map. apply IH. lia.
Qed.

Lemma pick_rev xs idx :
  length idx = length xs -> rev (pick xs idx) = pick (rev xs) (rev idx).
Proof.
  revert idx. induction xs as [|x xs IH]; intros [|i idx] Hlen; try done.
  simpl in *. unfold pick in *. simpl.
  rewrite IH by lia. rewrite zip_with_app by (rewrite !length_rev; lia). done.
Qed.

Lemma pick_swap01 xs idx :
  length idx = length xs -> swap01 (pick (swap01 xs) idx) = pick xs (swap01 idx).
Proof.
  destruct xs as [|a [|b t]], idx as [|i [|j u]]; done.
Qed.

Lemma length_swap01 {A} (l : list A) : length (swap01 l) = length l.
Proof. by destruct l as [|a [|b t]]. Qed.

Lemma map_swap01 {A B} (f : A -> B) (l : list A) : map f (swap01 l) = swap01 (map f l).
Proof. by destruct l as [|a [|b t]]. Qed.

Lemma nth_meshgrid xs k idx :
  k < length xs ->
  at_index (nth k (meshgrid xs) (NdArray [] (fun _ => 0%Q))) idx
  = nth (nth k (swap01 idx) 0) (nth k xs []) 0%Q.
Proof.
  intros Hk. unfold meshgrid.
  destruct (lookup_lt_is_Some_2 xs k Hk) as [x Hx].
  rewrite (nth_lookup_Some _ _ _ (NdArray (swap01 (map length xs))
             (fun idx => nth (nth k (swap01 idx) 0) x 0%Q))).
  - simpl. by rewrite (nth_lookup_Some _ _ _ _ Hx).
  - by rewrite list_lookup_imap, Hx.
Qed.

Lemma shape_stacked_meshgrid xs :
  xs <> [] ->
  shape (transpose (np_array (meshgrid xs)))
  = rev (swap01 (map length xs)) ++ [length xs].
Proof.
  intros Hne. unfold transpose, np_array. cbn [shape].
  unfold meshgrid. rewrite length_imap.
  destruct xs as [|x xs]; [done|]. done.
Qed.

(** The grid of the raster scan: the row-major product of the ranges taken
    in the order last, ..., third, first, second, each point put back in
    the order of the ranges. *)
Lemma raster_points_eq xs :
  xs <> [] ->
  raster_points xs
  = inr (map (fun t => swap01 (rev t)) (row_major_product (rev (swap01 xs)))).
Proof.
  intros Hne. unfold raster_points, reshape_rows.
  assert (Hn : length xs <> 0) by (destruct xs; simpl; [done|lia]).
  set (n := length xs) in *.
  set (msh := rev (swap01 (map length xs))).
  assert (Hshape := shape_stacked_meshgrid xs Hne). fold msh n in Hshape.
  unfold ravel. rewrite Hshape, np_prod_app.
  change (np_prod [n]) with (n * 1). rewrite Nat.mul_1_r.
  rewrite Nat.Div0.mod_mul, Nat.div_mul by done.
  destruct (Nat.eqb_spec n 0) as [|_]; [done|]. simpl. f_equal.
  rewrite <- unravel_row_major, map_map.
  assert (Hmsh : map length (rev (swap01 xs)) = msh).
  { unfold msh. by rewrite map_rev, map_swap01. }
  rewrite Hmsh.
  apply map_ext_in. intros r Hr. apply in_seq in Hr.
  rewrite pick_rev by (rewrite length_unravel; unfold msh;
                        rewrite !length_rev, !length_swap01, length_map; done).
  rewrite rev_involutive, pick_swap01
    by (rewrite length_rev, length_unravel; unfold msh;
        rewrite length_rev, length_swap01, length_map; done).
  rewrite <- pick_seq
    by (rewrite length_swap01, length_rev, length_unravel; unfold msh;
        rewrite length_rev, length_swap01, length_map; done).
  fold n. apply map_ext_in. intros k Hk. apply in_seq in Hk.
  rewrite nth_map_seq by nia.
  rewrite unravel_snoc, Nat.div_add_l, Nat.div_small, Nat.add_0_r by lia.
  rewrite Nat.add_comm, Nat.Div0.mod_add, Nat.mod_small by lia.
  unfold transpose, np_array. cbn [at_index].
  rewrite rev_app_distr. simpl rev. cbn [app].
  by rewrite nth_meshgrid by lia.
Qed.

End RasterGrid.

(** ** What a method leaves as it was *)

Section Frames.
Context {H : Type} `{!MotorInterface H} `{!ProcessInterface H} `{!Lmfit}.


Section Rules.
Context (R : relation (world H)) `{!PreOrder R}.

Lemma post_ret {A} (x : A) : post R (mret x).
Proof. intros w. simpl. reflexivity. Qed.

Lemma post_raise {A} e : post R (raise e : M A).
Proof. intros w. simpl. reflexivity. Qed.

Lemma post_lift {A} (r : exn + A) : post R (lift r).
Proof. intros w. simpl. reflexivity. Qed.

Lemma post_attr {A} (f : logic -> A) : post R (attr f).
Proof. intros w. simpl. reflexivity. Qed.

Lemma post_bind {A B} (c : @M H A) (k : A -> M B) :
  post R c -> (forall x, post R (k x)) -> post R (c ≫= k).
Proof.
  intros Hc Hk w. unfold mbind, M_bind.
  specialize (Hc w). destruct (c w) as [w' [e|x]]; simpl in *; [done|].
  etrans; [exact Hc|]. apply Hk.
Qed.

End Rules.


#[global] Instance same_preorder {A} (f : logic -> A) : PreOrder (same (H:=H) f).
Proof. split; unfold same; [done|]. intros x y z ? ?. congruence. Qed.

Lemma same_assign {A} (f : logic -> A) (g : logic -> logic) :
  (forall s, f (g s) = f s) -> post (H:=H) (same f) (assign g).
Proof. intros Hg w. apply Hg. Qed.

Lemma same_motor_get_status {A} (f : logic -> A) axes : post (same f) (motor_get_status axes).
Proof. done. Qed.
Lemma same_motor_get_pos {A} (f : logic -> A) axes : post (same f) (motor_get_pos axes).
Proof. done. Qed.
Lemma same_motor_move_abs {A} (f : logic -> A) d : post (same f) (motor_move_abs d).
Proof. done. Qed.
Lemma same_counter {A} (f : logic -> A) : post (same f) counter_get_process_value.
Proof. done. Qed.
Lemma same_emit {A} (f : logic -> A) : post (H:=H) (same f) signal_emit.
Proof. done. Qed.

End Frames.

Create HintDb frame.

#[global] Hint Resolve post_ret post_raise post_lift post_attr same_motor_get_status
  same_motor_get_pos same_motor_move_abs same_counter same_emit : frame.

(** Walks through a method: binds, branches, then the leaves. *)
Ltac frame_step :=
  match goal with
  | |- post _ (mbind _ _) => apply post_bind; [apply _ | | intros ?]
  | |- post _ (_ ≫= _) => apply post_bind; [apply _ | | intros ?]
  | |- post _ (if ?b then _ else _) => destruct b
  | |- post _ (match ?x with _ => _ end) => destruct x
  | |- post _ (let '(_, _) := ?x in _) => destruct x
  | |- post (same _) (assign _) => apply same_assign; intros []; reflexivity
  | |- post _ _ => solve [auto with frame typeclass_instances]
  end.

Ltac frame := repeat frame_step.


(** ** Busy ticks *)

Section BusyTicks.
Context {H : Type} `{!MotorInterface H} `{!ProcessInterface H} `{!Lmfit}.


Lemma busy_tick sl (w : world H) :
  np_all (dict_values (get_status (_optimized_axis (self w)) (hardware w)).2) = false ->
  run_slot sl w
  = (World (self w) (get_status (_optimized_axis (self w)) (hardware w)).1
           (moves w) (S (emitted w)), inr tt).
Proof.
  intros Hbusy.
  destruct sl; unfold run_slot, raster_scan, gradient_descent;
    unfold mbind, M_bind, attr, motor_get_status; simpl; by rewrite Hbusy.
Qed.

(** C6: while the positioner reports a selected axis busy, a tick of the
    raster scan or of the gradient stepper changes nothing in the object,
    so the point index, the sampled values and the sampled positions stay
    as they were, and sends no move; this holds for any number of busy
    ticks in a row, whose only trace is that the signal was re-emitted. *)
Theorem busy_ticks_change_nothing (sls : list slot) (w : world H) :
  busy_during sls (_optimized_axis (self w)) (hardware w) ->
  self (run_slots sls w) = self w
  /\ moves (run_slots sls w) = moves w
  /\ emitted (run_slots sls w) = emitted w + length sls.
Proof.
  revert w. induction sls as [|sl sls IH]; intros w Hbusy.
  - simpl. auto with lia.
  - destruct Hbusy as [Hnow Hlater].
    unfold run_slots in *. cbn [fold_left]. unfold exec at 2 4 6.
    rewrite (busy_tick sl w Hnow). cbn [fst].
    destruct (IH (World (self w) (get_status (_optimized_axis (self w)) (hardware w)).1
                        (moves w) (S (emitted w)))) as (Hs & Hm & He); [exact Hlater|].
    rewrite Hs, Hm, He. simpl. auto with lia.
Qed.

End BusyTicks.

(** ** Axis ranges *)

Lemma truthy_zero (z : Q) : z == 0 -> truthy z = false.
Proof.
  intros Hz. unfold truthy. apply negb_false_iff. by apply Qeq_bool_iff.
Qed.


(** ** The alignment store *)

Section Store.
Context {H : Type} `{!MotorInterface H} `{!ProcessInterface H} `{!Lmfit}.

(** The setter stores, for an axis it knows, the range between the bounds
    that [axis_range_bounds] gives. *)
Lemma axis_range_setter_stores (w : world H) (axis : key) (request : Q * Q * Q)
    (c : constraint) (arr : list Q) :
  dict_get (_constraints (self w)) axis = Some c ->
  np_arange (axis_range_bounds c request).1.1 (axis_range_bounds c request).1.2
            (axis_range_bounds c request).2 = inr arr ->
  axis_range_setter [(axis, request)] w
  = (World (set_axis_range (dict_set (_axis_range (self w)) axis arr) (self w))
           (hardware w) (moves w) (emitted w), inr tt).
Proof.
  intros Hc Harr.
  unfold axis_range_setter, mbind, M_bind, attr, lift, getitem. simpl.
  rewrite Hc. destruct (axis_range_bounds c request) as [[ax_min ax_max] ax_step].
  simpl in *. by rewrite Harr.
Qed.


Lemma scan_point_same_alignments i : post (same _alignments) (scan_point i).
Proof. unfold scan_point, time_sleep. frame. Qed.

Lemma motor_positions_setter_same_alignments d :
  post (same _alignments) (motor_positions_setter d).
Proof. unfold motor_positions_setter. frame. Qed.

Lemma raster_scan_same_alignments : post (same _alignments) raster_scan.
Proof.
  pose proof scan_point_same_alignments.
  pose proof motor_positions_setter_same_alignments.
  unfold raster_scan, raster_fit, raster_grid, read_point_index,
    signal_disconnect. frame.
Qed.

Lemma gradient_descent_same_alignments : post (same _alignments) gradient_descent.
Proof.
  pose proof scan_point_same_alignments.
  unfold gradient_descent, gradient_first_points, points_append,
    read_point_index, signal_disconnect. frame.
Qed.

Lemma operate_same_alignments o : post (same _alignments) (operate o).
Proof.
  pose proof raster_scan_same_alignments.
  pose proof gradient_descent_same_alignments.
  pose proof motor_positions_setter_same_alignments.
  destruct o as [d|name| |[]|]; unfold operate, run_slot, start_optimization,
    stop_optimization, retrieve_alignment, signal_connect, signal_disconnect,
    read_point_index; frame.
Qed.

(** C8: an alignment saved under a name and recalled later, after any moves
    of the axes, recalls and optimization runs in between, commands the
    positioner to exactly the positions that were the current ones when it
    was saved, and the recall returns normally. *)
Theorem recall_restores_saved_position (name : string) (ops : list operation)
    (w : world H) :
  let saved := _motor_positions (self w) in
  let w' := fold_left (fun w o => exec (operate o) w) ops (exec (add_alignment name) w) in
  (retrieve_alignment name w').2 = inr tt
  /\ moves (exec (retrieve_alignment name) w') = moves w' ++ [saved].
Proof.
  intros saved w'.
  assert (Hlookup : _alignments (self w') !! name = Some saved).
  { subst w'. induction ops as [|o ops IH] using rev_ind.
    - simpl. apply lookup_insert_eq.
    - rewrite fold_left_app. simpl. unfold exec at 1.
      rewrite (operate_same_alignments o _). exact IH. }
  unfold exec, retrieve_alignment, mbind, M_bind, attr. simpl.
  rewrite Hlookup. done.
Qed.

End Store.

(** ** Cancelling a run *)

Section Cancel.
Context {H : Type} `{!MotorInterface H} `{!ProcessInterface H} `{!Lmfit}.

Lemma post_weaken (R R' : relation (world H)) {A} (c : @M H A) :
  (forall w w', R w w' -> R' w w') -> post R c -> post R' c.
Proof. intros HR Hc w. apply HR, Hc. Qed.


#[global] Instance run_frame_preorder : PreOrder (run_frame (H:=H)).
Proof.
  split.
  - intros w. split; auto.
  - intros w1 w2 w3 [Hs12 Hm12] [Hs23 Hm23]. split; [auto|].
    destruct Hm23 as [Hm23|]; [|auto].
    destruct Hm12 as [Hm12|Hs2]; [left; congruence|auto].
Qed.

Lemma run_frame_same {A} (c : @M H A) :
  post (same _motor_positions) c -> post (same _scanner_signal) c ->
  post run_frame c.
Proof.
  intros Hm Hs w. specialize (Hm w). specialize (Hs w). unfold same in *.
  split; [congruence|auto].
Qed.

Lemma signal_disconnect_run_frame : post (H:=H) run_frame signal_disconnect.
Proof. intros w. split; simpl; auto. Qed.

(** A part of a method that touches neither field is done at once; else
    the method is taken apart. *)
Ltac run_frame_tac :=
  repeat first
    [ assumption
    | apply signal_disconnect_run_frame
    | apply run_frame_same; solve [frame]
    | apply post_bind; [apply _ | | intros ?]
    | match goal with
      | |- post _ (if ?b then _ else _) => destruct b
      | |- post _ (match ?x with _ => _ end) => destruct x
      end ].

Lemma scan_point_same_motor_positions i : post (same _motor_positions) (scan_point i).
Proof. unfold scan_point, time_sleep. frame. Qed.

Lemma scan_point_same_scanner_signal i : post (same _scanner_signal) (scan_point i).
Proof. unfold scan_point, time_sleep. frame. Qed.

Lemma motor_positions_setter_same_scanner_signal d :
  post (same _scanner_signal) (motor_positions_setter d).
Proof. unfold motor_positions_setter. frame. Qed.

(** Whatever the fit does, it has disconnected the signal first. *)
Lemma raster_fit_disconnects (w : world H) :
  _scanner_signal (self (raster_fit w).1) = [].
Proof.
  pose proof motor_positions_setter_same_scanner_signal.
  unfold raster_fit.
  match goal with
  | |- context [ signal_disconnect ≫= ?k ] =>
      assert (Hk : post (same _scanner_signal) (k tt)) by frame
  end.
  unfold mbind at 1, M_bind at 1. simpl. apply Hk.
Qed.

Lemma raster_fit_run_frame : post run_frame raster_fit.
Proof.
  intros w. pose proof (raster_fit_disconnects w). split; auto.
Qed.

Lemma raster_scan_run_frame : post run_frame raster_scan.
Proof.
  pose proof raster_fit_run_frame.
  pose proof scan_point_same_motor_positions.
  pose proof scan_point_same_scanner_signal.
  unfold raster_scan, raster_grid, read_point_index.
  run_frame_tac.
Qed.

Lemma gradient_descent_run_frame : post run_frame gradient_descent.
Proof.
  pose proof scan_point_same_motor_positions.
  pose proof scan_point_same_scanner_signal.
  unfold gradient_descent, gradient_first_points, points_append, read_point_index.
  run_frame_tac.
Qed.

Lemma run_slots_run_frame sls (w : world H) : run_frame w (run_slots sls w).
Proof.
  revert w. induction sls as [|sl sls IH]; intros w; [reflexivity|].
  unfold run_slots in *. cbn [fold_left].
  etrans; [|apply IH]. unfold exec.
  destruct sl; [apply raster_scan_run_frame|apply gradient_descent_run_frame].
Qed.

(** [start_optimization], step by step. *)

Lemma start_optimization_eq (w : world H) :
  start_optimization w
  = if method_is (_optimization_method (self w)) "raster"
    then raster_scan (started slot_raster_scan w)
    else if method_is (_optimization_method (self w)) "gradient"
    then gradient_descent (started slot_gradient_descent w)
    else (World (set_point_index (Some 0) (self w)) (hardware w) (moves w)
                (emitted w), inr tt).
Proof.
  unfold start_optimization, signal_connect, mbind, M_bind, attr, assign, started.
  simpl. by repeat destruct (method_is _ _).
Qed.

(** Starting keeps the cached position, unless the first tick already
    reached the fit. *)
Lemma start_optimization_motor_positions (w : world H) :
  _motor_positions (self (exec start_optimization w)) = _motor_positions (self w)
  \/ _scanner_signal (self (exec start_optimization w)) = [].
Proof.
  unfold exec. rewrite start_optimization_eq.
  destruct (method_is _ "raster").
  - destruct (raster_scan_run_frame (started slot_raster_scan w)) as [_ Hr].
    exact Hr.
  - destruct (method_is _ "gradient"); [|by left].
    destruct (gradient_descent_run_frame (started slot_gradient_descent w)) as [_ Hr].
    exact Hr.
Qed.


End Cancel.

(** ** Running a method step by step *)

Section Steps.
Context {H : Type} `{!MotorInterface H} `{!ProcessInterface H} `{!Lmfit}.

Lemma bind_assoc {A B C} (c : @M H A) (f : A -> M B) (g : B -> M C) (w : world H) :
  ((c ≫= f) ≫= g) w = (c ≫= (fun x => f x ≫= g)) w.
Proof. unfold mbind, M_bind. by destruct (c w) as [w' [e|x]]. Qed.

Lemma bind_ret {A B} (x : A) (k : A -> M B) (w : world H) : (mret x ≫= k) w = k x w.
Proof. done. Qed.

Lemma bind_attr {A B} (f : logic -> A) (k : A -> M B) (w : world H) :
  (attr f ≫= k) w = k (f (self w)) w.
Proof. done. Qed.

Lemma bind_assign {B} (g : logic -> logic) (k : unit -> M B) (w : world H) :
  (assign g ≫= k) w = k tt (World (g (self w)) (hardware w) (moves w) (emitted w)).
Proof. done. Qed.

Lemma bind_lift_inr {A B} (x : A) (k : A -> M B) (w : world H) :
  (lift (inr x) ≫= k) w = k x w.
Proof. done. Qed.

Lemma bind_lift_inl {A B} (e : exn) (k : A -> M B) (w : world H) :
  (lift (inl e) ≫= k) w = (w, inl e).
Proof. done. Qed.

Lemma bind_raise {A B} (e : exn) (k : A -> M B) (w : world H) :
  (raise e ≫= k) w = (w, inl e).
Proof. done. Qed.

Lemma bind_motor_get_status {B} axes (k : dict bool -> M B) (w : world H) :
  (motor_get_status axes ≫= k) w
  = k (get_status axes (hardware w)).2
      (World (self w) (get_status axes (hardware w)).1 (moves w) (emitted w)).
Proof. done. Qed.

Lemma bind_motor_get_pos {B} axes (k : dict Q -> M B) (w : world H) :
  (motor_get_pos axes ≫= k) w
  = k (get_pos axes (hardware w)).2
      (World (self w) (get_pos axes (hardware w)).1 (moves w) (emitted w)).
Proof. done. Qed.

Lemma bind_motor_move_abs {B} d (k : dict Q -> M B) (w : world H) :
  (motor_move_abs d ≫= k) w
  = k (move_abs d (hardware w)).2
      (World (self w) (move_abs d (hardware w)).1 (moves w ++ [d]) (emitted w)).
Proof. done. Qed.

Lemma bind_counter {B} (k : Q -> M B) (w : world H) :
  (counter_get_process_value ≫= k) w
  = k (get_process_value (hardware w)).2
      (World (self w) (get_process_value (hardware w)).1 (moves w) (emitted w)).
Proof. done. Qed.

Lemma post_same_apply {A B} (f : logic -> A) (c : @M H B) (w : world H) (v : A) :
  post (same f) c -> f (self w) = v -> f (self (c w).1) = v.
Proof. intros Hc <-. apply Hc. Qed.

End Steps.

(** Reading a field of an object that has just been assigned to. *)
Ltac fields :=
  cbn [self hardware moves emitted fst snd
       _constraints _axis_list _optimized_axis _axis_range _scan_delay
       _optimization_method _alignments _motor_positions _points _scan
       _scan_pos point_index _scanner_signal
       set_axis_range set_optimization_method set_alignments
       set_motor_positions set_points set_scan set_scan_pos set_point_index
       set_scanner_signal] in *.

(** One step of a method: the first statement is run. *)
Ltac mstep :=
  match goal with
  | |- context [ mbind ?g (mbind ?f ?c) ?w ] => rewrite (bind_assoc c f g w)
  | |- context [ mbind ?k (mret ?x) ?w ] => rewrite (bind_ret x k w)
  | |- context [ mbind ?k (attr ?f) ?w ] => rewrite (bind_attr f k w)
  | |- context [ mbind ?k (assign ?g) ?w ] => rewrite (bind_assign g k w)
  | |- context [ mbind ?k (lift (inr ?x)) ?w ] => rewrite (bind_lift_inr x k w)
  | |- context [ mbind ?k (lift (inl ?e)) ?w ] => rewrite (bind_lift_inl e k w)
  | |- context [ mbind ?k (raise ?e) ?w ] => rewrite (bind_raise e k w)
  | |- context [ mbind ?k (motor_get_status ?a) ?w ] =>
      rewrite (bind_motor_get_status a k w)
  | |- context [ mbind ?k (motor_get_pos ?a) ?w ] =>
      rewrite (bind_motor_get_pos a k w)
  | |- context [ mbind ?k (motor_move_abs ?d) ?w ] =>
      rewrite (bind_motor_move_abs d k w)
  | |- context [ mbind ?k counter_get_process_value ?w ] =>
      rewrite (bind_counter k w)
  end;
  fields.

Section RasterStart.
Context {H : Type} `{!MotorInterface H} `{!ProcessInterface H} `{!Lmfit}.

Lemma mapM_getitem (axis_range : dict (list Q)) axes ranges :
  Forall2 (fun axis r => dict_get axis_range axis = Some r) axes ranges ->
  mapM (getitem axis_range) axes = inr ranges.
Proof.
  induction 1 as [|axis r axes ranges Hr _ IH]; [done|].
  cbn [mapM]. cbn [mapM] in IH. rewrite IH.
  unfold getitem. by rewrite Hr.
Qed.

Lemma scan_point_same_points i : post (same _points) (scan_point i).
Proof. unfold scan_point, time_sleep. frame. Qed.

Lemma motor_positions_setter_same_points d :
  post (same _points) (motor_positions_setter d).
Proof. unfold motor_positions_setter. frame. Qed.

Lemma raster_fit_same_points : post (same _points) raster_fit.
Proof.
  pose proof motor_positions_setter_same_points.
  unfold raster_fit, signal_disconnect. frame.
Qed.

Lemma length_row_major_rows ys t :
  In t (row_major_product ys) -> length t = length ys.
Proof.
  revert t. induction ys as [|y ys IH]; intros t Ht; simpl in *.
  - by destruct Ht as [<-|[]].
  - apply in_flat_map in Ht as (a & _ & Ht).
    apply in_map_iff in Ht as (t' & <- & Ht'). simpl. f_equal. by apply IH.
Qed.

Lemma row_major_small xs :
  length xs <= 2 ->
  map (fun t => swap01 (rev t)) (row_major_product (rev (swap01 xs)))
  = row_major_product xs.
Proof.
  intros Hlen.
  assert (Hxs : rev (swap01 xs) = xs).
  { destruct xs as [|a [|b [|c xs]]]; simpl in *; try done. lia. }
  rewrite Hxs. rewrite <- (map_id (row_major_product xs)) at 2.
  apply map_ext_in. intros t Ht. apply length_row_major_rows in Ht.
  destruct t as [|a [|b [|c t]]]; simpl in *; try done. lia.
Qed.

(** The tick that generates the grid: the first one of a run, point index
    0, that finds the positioner idle. *)
Lemma first_idle_tick_point_list (w : world H) (ranges : list (list Q)) :
  point_index (self w) = Some 0 ->
  np_all (dict_values (get_status (_optimized_axis (self w)) (hardware w)).2) = true ->
  ranges <> [] ->
  Forall2 (fun axis r => dict_get (_axis_range (self w)) axis = Some r)
          (_optimized_axis (self w)) ranges ->
  _points (self (exec raster_scan w))
  = PointsArray (map (fun t => swap01 (rev t))
                     (row_major_product (rev (swap01 ranges)))).
Proof.
  intros Hindex Hidle Hne Hranges.
  unfold exec, raster_scan, read_point_index, raster_grid.
  repeat mstep. rewrite Hidle. cbn [negb]. repeat mstep. rewrite Hindex.
  repeat mstep. rewrite Nat.eqb_refl. repeat mstep.
  rewrite (mapM_getitem _ _ _ Hranges). mstep.
  rewrite (raster_points_eq _ Hne). repeat mstep.
  pose proof scan_point_same_points. pose proof raster_fit_same_points.
  apply post_same_apply; [frame|reflexivity].
Qed.

(** C1, as the code has it: starting a raster optimization on an idle
    positioner, with a range configured for each axis of a non-empty
    selection, generates a point list whose length is the product of the
    range lengths.  Its order is the Cartesian expansion in which the second
    selected axis varies fastest, then the first, then the third, and so on
    up to the last, which varies slowest; for one or two selected axes this
    is the row-major expansion with the last selected axis varying
    fastest. *)
Theorem start_raster_point_list (w : world H) (ranges : list (list Q)) :
  _optimization_method (self w) = MethodStr "raster" ->
  np_all (dict_values (get_status (_optimized_axis (self w)) (hardware w)).2) = true ->
  _optimized_axis (self w) <> [] ->
  Forall2 (fun axis r => dict_get (_axis_range (self w)) axis = Some r)
          (_optimized_axis (self w)) ranges ->
  exists pts,
    _points (self (exec start_optimization w)) = PointsArray pts
    /\ length pts = np_prod (map length ranges)
    /\ pts = map (fun t => swap01 (rev t)) (row_major_product (rev (swap01 ranges)))
    /\ (length ranges <= 2 -> pts = row_major_product ranges).
Proof.
  intros Hmethod Hidle Haxes Hranges.
  assert (Hne : ranges <> []).
  { intros ->. apply Forall2_length in Hranges.
    destruct (_optimized_axis (self w)); simpl in *; [done|lia]. }
  eexists. split; [|split; [|split]]; [| |reflexivity|].
  - unfold exec. rewrite start_optimization_eq, Hmethod. simpl.
    by apply (first_idle_tick_point_list (started slot_raster_scan w)).
  - rewrite length_map, length_row_major_product.
    by rewrite map_rev, np_prod_rev, map_swap01, np_prod_swap01.
  - intros Hlen. by apply row_major_small.
Qed.

End RasterStart.

(** ** Which exceptions the code can raise

    [FitError] and [AlreadyRunning] are names of the specification; the
    code raises the exceptions of Python, NumPy and the fitting library. *)



Lemma builtin_inr {A} (x : A) : builtin (inr x).
Proof. intros e He. discriminate. Qed.

Lemma builtin_bind {A B} (r : exn + A) (k : A -> exn + B) :
  builtin r -> (forall x, builtin (k x)) -> builtin (r ≫= k).
Proof.
  intros Hr Hk. destruct r as [e|x]; simpl; [|apply Hk].
  intros e' [= <-]. by apply Hr.
Qed.

Lemma builtin_fmap {A B} (f : A -> B) (r : exn + A) : builtin r -> builtin (f <$> r).
Proof.
  intros Hr. destruct r as [e|x]; simpl; [|apply builtin_inr].
  intros e' [= <-]. by apply Hr.
Qed.

Lemma builtin_for_enumerate {A S} (l : list A) (body : S -> nat -> A -> exn + S) init :
  (forall s j x, builtin (body s j x)) -> builtin (for_enumerate l body init).
Proof.
  intros Hbody. unfold for_enumerate.
  generalize (imap pair l). intros jl.
  assert (Hinit : builtin (inr init : exn + S)) by apply builtin_inr.
  revert Hinit. generalize (inr init : exn + S).
  induction jl as [|jx jl IH]; intros acc Hacc; simpl; [done|].
  apply IH. apply builtin_bind; [done|]. intros s. apply Hbody.
Qed.

Lemma builtin_mapM {A B} (f : A -> exn + B) (l : list A) :
  (forall x, builtin (f x)) -> builtin (mapM f l).
Proof.
  intros Hf. induction l as [|x l IH]; [apply builtin_inr|].
  cbn [mapM]. apply builtin_bind; [apply Hf|]. intros y.
  apply builtin_bind; [apply IH|]. intros ys. apply builtin_inr.
Qed.

(** The leaves: each raises one of Python's own exceptions, if any. *)
Ltac builtin_leaf :=
  intros e He; intros [-> | ->];
  repeat match goal with
         | H : context [ match ?x with _ => _ end ] |- _ => destruct x; try discriminate
         | H : context [ if ?b then _ else _ ] |- _ => destruct b; try discriminate
         end; discriminate.

Lemma builtin_getitem {V} (d : dict V) k : builtin (getitem d k).
Proof. unfold getitem. builtin_leaf. Qed.

Lemma builtin_py_index {A} (l : list A) i : builtin (py_index l i).
Proof. unfold py_index. builtin_leaf. Qed.

Lemma builtin_np_array_rows rows : builtin (np_array_rows rows).
Proof. unfold np_array_rows. builtin_leaf. Qed.

Lemma builtin_column a j : builtin (column a j).
Proof. unfold column. builtin_leaf. Qed.

Lemma builtin_item2 a i j : builtin (item2 a i j).
Proof.
  unfold item2. pose proof (builtin_py_index a i) as Hi.
  destruct (py_index a i) as [e|r]; [|builtin_leaf].
  intros e' [= <-]. by apply Hi.
Qed.

Lemma builtin_np_subtract u v : builtin (np_subtract u v).
Proof. unfold np_subtract. builtin_leaf. Qed.

Lemma builtin_np_min v : builtin (np_min v).
Proof. unfold np_min. builtin_leaf. Qed.

Lemma builtin_np_max v : builtin (np_max v).
Proof. unfold np_max. builtin_leaf. Qed.

Lemma builtin_np_argmax v : builtin (np_argmax v).
Proof. unfold np_argmax. builtin_leaf. Qed.

Lemma builtin_reshape_rows a n : builtin (reshape_rows a n).
Proof. unfold reshape_rows. builtin_leaf. Qed.

Lemma builtin_points_item p i j : builtin (points_item p i j).
Proof.
  unfold points_item. destruct p; [builtin_leaf|apply builtin_item2|builtin_leaf].
Qed.

Lemma builtin_points_shape0 p : builtin (points_shape0 p).
Proof. unfold points_shape0. builtin_leaf. Qed.

Lemma builtin_inl {A} e : ~ named_error e -> builtin (inl e : exn + A).
Proof. intros He e' [= <-]. done. Qed.

Create HintDb builtin.

#[global] Hint Resolve builtin_inr builtin_getitem builtin_py_index
  builtin_np_array_rows builtin_column builtin_item2 builtin_np_subtract
  builtin_np_min builtin_np_max builtin_np_argmax builtin_reshape_rows
  builtin_points_item builtin_points_shape0 : builtin.

Ltac builtin_step :=
  match goal with
  | |- builtin (mbind _ _) => apply builtin_bind; [|intros ?]
  | |- builtin (_ ≫= _) => apply builtin_bind; [|intros ?]
  | |- builtin (fmap _ _) => apply builtin_fmap
  | |- builtin (mret _) => apply builtin_inr
  | |- builtin (for_enumerate _ _ _) => apply builtin_for_enumerate; intros ? ? ?
  | |- builtin (mapM _ _) => apply builtin_mapM; intros ?
  | |- builtin (inl _) => apply builtin_inl; intros [?|?]; discriminate
  | |- builtin (if ?b then _ else _) => destruct b
  | |- builtin (match ?x with _ => _ end) => destruct x
  | |- builtin (let '(_, _) := ?x in _) => destruct x
  | |- builtin _ => solve [auto with builtin]
  end.

Ltac builtin_tac := repeat builtin_step.

Lemma builtin_raster_points ranges : builtin (raster_points ranges).
Proof. unfold raster_points. builtin_tac. Qed.

Lemma builtin_np_array_positions p : builtin (np_array_positions p).
Proof. unfold np_array_positions. builtin_tac. Qed.

Lemma builtin_fitted_position axes fit_result :
  builtin (fitted_position axes fit_result).
Proof. unfold fitted_position. builtin_tac. Qed.

Lemma builtin_fit_parameters_of axes sp sc : builtin (fit_parameters_of axes sp sc).
Proof. unfold fit_parameters_of, fit_parameters. builtin_tac. Qed.

Lemma builtin_samples_index s i : builtin (samples_index s i).
Proof. unfold samples_index. builtin_tac. Qed.

Lemma builtin_positions_index p i : builtin (positions_index p i).
Proof. unfold positions_index. builtin_tac. Qed.

Lemma builtin_row_subtract p q : builtin (row_subtract p q).
Proof. unfold row_subtract. builtin_tac. Qed.

#[global] Hint Resolve builtin_samples_index builtin_positions_index
  builtin_row_subtract : builtin.

Lemma builtin_slopes_of sc sp i : builtin (slopes_of sc sp i).
Proof. unfold slopes_of. builtin_tac. Qed.

#[global] Hint Resolve builtin_raster_points builtin_np_array_positions
  builtin_fit_parameters_of builtin_slopes_of builtin_fitted_position : builtin.

Section MethodErrors.
Context {H : Type} `{!MotorInterface H} `{!ProcessInterface H} `{!Lmfit}.


Lemma raises_builtin_bind {A B} (c : @M H A) (k : A -> M B) :
  raises_builtin c -> (forall x, raises_builtin (k x)) -> raises_builtin (c ≫= k).
Proof.
  intros Hc Hk w. unfold mbind, M_bind. specialize (Hc w).
  destruct (c w) as [w' [e|x]]; simpl in *; [|apply Hk].
  intros e' [= <-]. by apply Hc.
Qed.

Lemma raises_builtin_lift {A} (r : exn + A) :
  builtin r -> raises_builtin (H:=H) (lift r).
Proof. intros Hr w. exact Hr. Qed.

Lemma raises_builtin_raise {A} e :
  ~ named_error e -> raises_builtin (H:=H) (raise e : M A).
Proof. intros He w. by apply builtin_inl. Qed.

Lemma raises_builtin_ok {A} (c : @M H A) :
  (forall w, exists x, (c w).2 = inr x) -> raises_builtin c.
Proof. intros Hc w. destruct (Hc w) as [x ->]. apply builtin_inr. Qed.

End MethodErrors.

Ltac raises_builtin_step :=
  match goal with
  | |- raises_builtin (mbind _ _) => apply raises_builtin_bind; [|intros ?]
  | |- raises_builtin (_ ≫= _) => apply raises_builtin_bind; [|intros ?]
  | |- raises_builtin (lift _) => apply raises_builtin_lift; solve [builtin_tac]
  | |- raises_builtin (raise _) => apply raises_builtin_raise; intros [?|?]; discriminate
  | |- raises_builtin (if ?b then _ else _) => destruct b
  | |- raises_builtin (match ?x with _ => _ end) => destruct x
  | |- raises_builtin (let '(_, _) := ?x in _) => destruct x
  | |- raises_builtin _ => solve [auto]
  | |- raises_builtin _ => apply raises_builtin_ok; intros ?; eexists; reflexivity
  end.

Ltac raises_builtin_tac := repeat raises_builtin_step.

Section MethodErrorLemmas.
Context {H : Type} `{!MotorInterface H} `{!ProcessInterface H} `{!Lmfit}.


Lemma scan_point_builtin i : raises_builtin (scan_point i).
Proof. unfold scan_point, time_sleep. raises_builtin_tac. Qed.

Lemma motor_positions_setter_builtin d : raises_builtin (motor_positions_setter d).
Proof. unfold motor_positions_setter. raises_builtin_tac. Qed.

Lemma raster_fit_builtin : solver_builtin -> raises_builtin raster_fit.
Proof.
  intros Hsolver. pose proof motor_positions_setter_builtin.
  unfold raster_fit, signal_disconnect.
  repeat first
    [ apply raises_builtin_lift; apply Hsolver
    | raises_builtin_step ].
Qed.

Lemma raster_scan_builtin : solver_builtin -> raises_builtin raster_scan.
Proof.
  intros Hsolver. pose proof (raster_fit_builtin Hsolver).
  pose proof scan_point_builtin.
  unfold raster_scan, raster_grid, read_point_index. raises_builtin_tac.
Qed.

Lemma gradient_descent_builtin : raises_builtin gradient_descent.
Proof.
  pose proof scan_point_builtin.
  unfold gradient_descent, gradient_first_points, points_append,
    read_point_index, signal_disconnect. raises_builtin_tac.
Qed.

(** With nothing scanned yet the fit stops at [np.argmax] of an empty
    array, before the solver. *)
Lemma raster_fit_nothing_scanned (w : world H) :
  _scan_pos (self w) = PositionsList [] ->
  _scan (self w) = SamplesList [] ->
  (raster_fit w).2 = inl ValueError.
Proof.
  intros Hsp Hsc. unfold raster_fit, signal_disconnect.
  repeat mstep. rewrite Hsp.
  change (np_array_positions (PositionsList []))
    with (inr (PositionsArray []) : exn + positions_value).
  repeat mstep. rewrite Hsc. cbn [np_array_samples].
  repeat mstep.
  change (fit_parameters_of _ (PositionsArray []) (SamplesArray []))
    with (inl ValueError : exn + (list parameter * list (list Q) * list Q)).
  by mstep.
Qed.

(** The tick that [start_optimization] runs, at point index 0, does not
    reach the solver. *)
Lemma first_tick_builtin (w : world H) :
  point_index (self w) = Some 0 -> builtin (raster_scan w).2.
Proof.
  intros Hindex. unfold raster_scan, read_point_index, raster_grid.
  repeat mstep.
  destruct (negb _); [apply builtin_inr|].
  repeat mstep. rewrite Hindex. repeat mstep. rewrite Nat.eqb_refl.
  repeat mstep.
  pose proof (builtin_mapM (getitem (_axis_range (self w))) (_optimized_axis (self w))
                (builtin_getitem _)) as Hranges.
  destruct (mapM _ _) as [e|ranges];
    [mstep; intros e' [= <-]; by apply Hranges|].
  mstep. pose proof (builtin_raster_points ranges) as Hpts.
  destruct (raster_points ranges) as [e|pts];
    [mstep; intros e' [= <-]; by apply Hpts|].
  repeat mstep. cbn [points_shape0]. mstep.
  destruct (0 <? length pts).
  - match goal with
    | |- builtin (?c ?w1).2 => assert (Hc : raises_builtin c); [|apply Hc]
    end.
    pose proof scan_point_builtin. raises_builtin_tac.
  - rewrite raster_fit_nothing_scanned by done.
    apply builtin_inl. intros [?|?]; discriminate.
Qed.

(** Starting raises built-in exceptions only. *)
Lemma start_optimization_builtin : raises_builtin start_optimization.
Proof.
  intros w. rewrite start_optimization_eq.
  destruct (method_is _ "raster"); [by apply first_tick_builtin|].
  destruct (method_is _ "gradient"); [apply gradient_descent_builtin|].
  apply builtin_inr.
Qed.

End MethodErrorLemmas.

(** ** The fit at the end of a raster scan *)

Section Fit.
Context {H : Type} `{!MotorInterface H} `{!ProcessInterface H} `{!Lmfit}.

(** Once every point has been visited, an idle tick is the fit. *)
Lemma raster_scan_completed (w : world H) (i : nat) (pts : list (list Q)) :
  np_all (dict_values (get_status (_optimized_axis (self w)) (hardware w)).2) = true ->
  point_index (self w) = Some i -> 0 < i ->
  _points (self w) = PointsArray pts -> length pts <= i ->
  raster_scan w
  = raster_fit (World (self w) (get_status (_optimized_axis (self w)) (hardware w)).1
                      (moves w) (emitted w)).
Proof.
  intros Hidle Hi Hpos Hpts Hdone.
  unfold raster_scan, read_point_index.
  repeat mstep. rewrite Hidle. cbn [negb]. repeat mstep. rewrite Hi.
  repeat mstep.
  destruct (Nat.eqb_spec i 0) as [->|_]; [lia|]. repeat mstep.
  rewrite Hpts. cbn [points_shape0]. mstep.
  destruct (Nat.ltb_spec i (length pts)) as [?|_]; [lia|]. done.
Qed.

(** The fit sends no move unless the solver returned, and then it sends
    two: to the fitted centres, and to the position read back. *)
Lemma raster_fit_moves (w : world H) :
  match (raster_fit w).2 with
  | inl _ => moves (raster_fit w).1 = moves w
  | inr _ =>
      exists params a v fit_result centres pos,
        minimize params a v (_optimized_axis (self w)) = inr fit_result
        /\ fitted_position (_optimized_axis (self w)) fit_result = inr centres
        /\ moves (raster_fit w).1 = moves w ++ [centres; pos]
  end.
Proof.
  unfold raster_fit, signal_disconnect, motor_positions_setter.
  repeat mstep.
  destruct (np_array_positions _) as [e|sp]; [by mstep|]. repeat mstep.
  destruct (fit_parameters_of _ _ _) as [e|[[params a] v]]; [by mstep|].
  repeat mstep.
  destruct (minimize _ _ _ _) as [e|fit_result] eqn:Hfit; [by mstep|].
  repeat mstep.
  destruct (fitted_position _ _) as [e|centres] eqn:Hcentres; [by mstep|].
  repeat mstep. simpl.
  eexists _, _, _, _, _, _. split; [exact Hfit|]. split; [exact Hcentres|].
  by rewrite <- app_assoc.
Qed.


End Fit.

(** ** Starting while a run is active *)

Section Restart.
Context {H : Type} `{!MotorInterface H} `{!ProcessInterface H} `{!Lmfit}.


End Restart.

(** ** The initial width of the fit *)

Lemma for_enumerate_snoc {A S} (l : list A) (x : A)
    (body : S -> nat -> A -> exn + S) (init : S) :
  for_enumerate (l ++ [x]) body init
  = s ← for_enumerate l body init; body s (length l) x.
Proof.
  unfold for_enumerate. rewrite imap_app, fold_left_app. simpl.
  by rewrite Nat.add_0_r.
Qed.

(** What the fit is given as the width of axis [j]: the first scanned
    position minus the last, divided by ten, and that difference as upper
    bound. *)
Lemma fit_parameters_width (axes : list key) (a : list (list Q)) (v : list Q)
    (params : list parameter) (j : nat) :
  fit_parameters axes a v = inr params ->
  j < length axes ->
  exists wmin first last,
    item2 a 0 j = inr first /\ item2 a (-1) j = inr last
    /\ In (MkParameter (par_w j) (Some wmin) (Some (first - last)%Q)
                       ((first - last) / 10)%Q) params.
Proof.
  unfold fit_parameters.
  destruct (np_argmax v) as [e|imax]; [done|]. simpl.
  destruct (py_index a (Z.of_nat imax)) as [e|max_pos]; [done|]. simpl.
  destruct (np_min v) as [e|vmin]; [done|]. simpl.
  destruct (np_max v) as [e|vmax]; [done|]. simpl.
  generalize [MkParameter par_A (Some vmin) None vmax;
              MkParameter par_B (Some vmin) None vmin].
  intros init. revert params.
  induction axes as [|axis axes IH] using rev_ind; intros params Hfit Hj.
  - simpl in Hj. lia.
  - rewrite for_enumerate_snoc in Hfit.
    destruct (for_enumerate axes _ init) as [e|params0] eqn:Hparams0; [done|].
    simpl in Hfit. rewrite length_app in Hj. simpl in Hj.
    destruct (column a (length axes)) as [e|col]; [done|]. simpl in Hfit.
    destruct (np_min col) as [e|xmin]; [done|]. simpl in Hfit.
    destruct (np_max col) as [e|xmax]; [done|]. simpl in Hfit.
    destruct (py_index max_pos _) as [e|xval]; [done|]. simpl in Hfit.
    destruct (np_subtract _ _) as [e|steps]; [done|]. simpl in Hfit.
    destruct (np_min steps) as [e|wmin]; [done|]. simpl in Hfit.
    destruct (item2 a 0 (length axes)) as [e|first] eqn:Hfirst; [done|].
    simpl in Hfit.
    destruct (item2 a (-1) (length axes)) as [e|last] eqn:Hlast; [done|].
    simpl in Hfit. injection Hfit as <-.
    destruct (decide (j = length axes)) as [->|Hne].
    + exists wmin, first, last. split; [done|]. split; [done|].
      apply in_or_app. right. simpl. auto.
    + destruct (IH params0 eq_refl) as (wmin' & first' & last' & ? & ? & Hin); [lia|].
      exists wmin', first', last'. split; [done|]. split; [done|].
      apply in_or_app. by left.
Qed.

(** The fit has two free parameters, and two more for each axis. *)
Lemma fit_parameters_count (axes : list key) (a : list (list Q)) (v : list Q)
    (params : list parameter) :
  fit_parameters axes a v = inr params ->
  length params = 2 + 2 * length axes.
Proof.
  unfold fit_parameters.
  destruct (np_argmax v) as [e|imax]; [done|]. simpl.
  destruct (py_index a (Z.of_nat imax)) as [e|max_pos]; [done|]. simpl.
  destruct (np_min v) as [e|vmin]; [done|]. simpl.
  destruct (np_max v) as [e|vmax]; [done|]. simpl.
  match goal with
  | |- for_enumerate axes ?body ?init = inr params -> _ =>
      assert (Hgen : forall init' params',
                 for_enumerate axes body init' = inr params' ->
                 length params' = length init' + 2 * length axes)
  end.
  { intros init'. induction axes as [|axis axes IH] using rev_ind;
      intros params' Hfit.
    - injection Hfit as <-. simpl. lia.
    - rewrite for_enumerate_snoc in Hfit.
      destruct (for_enumerate axes _ init') as [e|params0]; [done|].
      simpl in Hfit. specialize (IH params0 eq_refl).
      repeat match type of Hfit with
             | context [ mbind _ ?r ] => destruct r; [done|]; simpl in Hfit
             end.
      injection Hfit as <-. rewrite !length_app, IH. simpl. lia. }
  intros Hfit. apply Hgen in Hfit. simpl in Hfit. lia.
Qed.

(** C9, at a scan of one axis over the positions 0, 1, 2, 3: the width
    handed to the fit is (0 - 3) / 10, a negative number, with the lower
    bound 1 and the upper bound -3, where one tenth of the scanned span is
    3 / 10. *)
Theorem initial_width_is_negative :
  fit_parameters [SHG] [[0]; [1]; [2]; [3]]%Q [1; 5; 2; 1]%Q
  = inr [MkParameter par_A (Some 1%Q) None 5%Q;
         MkParameter par_B (Some 1%Q) None 1%Q;
         MkParameter (par_x 0) (Some 0%Q) (Some 3%Q) 1%Q;
         MkParameter (par_w 0) (Some 1%Q) (Some (-3)%Q) (-3 # 10)%Q].
Proof. reflexivity. Qed.

(** ** The gradient stepper *)

(** NumPy does not guard a division: a zero denominator gives an infinity
    or NaN, never a zero slope. *)
Lemma np_true_divide_by_zero (x d : Q) :
  d == 0 -> np_true_divide x d = NaN \/ exists positive, np_true_divide x d = Inf positive.
Proof.
  intros Hd. unfold np_true_divide.
  apply Qeq_bool_iff in Hd. rewrite Hd.
  destruct (Qeq_bool x 0); eauto.
Qed.

(** C5: the slope between two consecutive samples taken at one and the
    same position is not zero: the positions are the Python lists that
    [scan_point] appended, and their subtraction raises TypeError. *)
Theorem slopes_at_same_position_raise (v0 v1 : Q) (p : list Q) :
  slopes_of (SamplesList [v0; v1]) (PositionsList [p; p]) 1 = inl TypeError.
Proof. reflexivity. Qed.

(** On the lists of a gradient run the slopes are never obtained. *)
Lemma slopes_of_lists_raise (sc : samples_value) (l : list (list Q)) (i : nat) :
  exists e, slopes_of sc (PositionsList l) i = inl e.
Proof.
  unfold slopes_of.
  destruct (samples_index sc (Z.of_nat i)) as [e|v1]; [by eexists|]. simpl.
  destruct (samples_index sc (Z.of_nat i - 1)) as [e|v0]; [by eexists|]. simpl.
  destruct (py_index l (Z.of_nat i)) as [e|p1]; [by eexists|]. simpl.
  destruct (py_index l (Z.of_nat i - 1)) as [e|p0]; [by eexists|]. simpl.
  by eexists.
Qed.

Section Gradient.
Context {H : Type} `{!MotorInterface H} `{!ProcessInterface H} `{!Lmfit}.

(** A statement either raises, and so does what follows it, or returns,
    and what follows runs in the world it leaves. *)
Lemma bind_cases {A B} (c : @M H A) (k : A -> M B) (w : world H) :
  (exists e, (c ≫= k) w = ((c w).1, inl e))
  \/ (exists x, (c ≫= k) w = k x (c w).1 /\ (c w).2 = inr x).
Proof.
  unfold mbind, M_bind. destruct (c w) as [w' [e|x]]; simpl; eauto.
Qed.

(** After a sample has been taken, [_scan_pos] is a Python list. *)
Lemma scan_point_positions_list (i : nat) (w : world H) :
  (scan_point i w).2 = inr tt ->
  exists l, _scan_pos (self (scan_point i w).1) = PositionsList l.
Proof.
  unfold scan_point, time_sleep. repeat mstep.
  destruct (for_enumerate _ _ _) as [e|param_dict]; [by mstep|].
  repeat mstep.
  destruct (Qltb _ 0); [by mstep|]. repeat mstep.
  destruct (_scan (self w)) as [|l|a]; try (by repeat mstep).
  repeat mstep.
  destruct (_scan_pos (self w)) as [|l'|a']; try (by repeat mstep).
  repeat mstep. intros _. simpl. by eexists.
Qed.

Lemma scan_point_same_point_index i : post (same point_index) (scan_point i).
Proof. unfold scan_point, time_sleep. frame. Qed.

(** C4: an idle tick of the gradient stepper never gets as far as its
    slopes: whatever the state of the object, it ends in an exception.  The
    point index has not advanced then and the signal is as connected as
    before: no step was taken and no convergence was recorded. *)
Theorem gradient_tick_raises (w : world H) :
  np_all (dict_values (get_status (_optimized_axis (self w)) (hardware w)).2) = true ->
  (exists e, (gradient_descent w).2 = inl e)
  /\ point_index (self (gradient_descent w).1) = point_index (self w)
  /\ _scanner_signal (self (gradient_descent w).1) = _scanner_signal (self w).
Proof.
  intros Hidle. unfold gradient_descent, read_point_index.
  repeat mstep. rewrite Hidle. cbn [negb]. repeat mstep.
  destruct (point_index (self w)) as [i|] eqn:Hi; [|repeat mstep; by eauto].
  repeat mstep.
  set (w1 := World (self w) _ (moves w) (emitted w)).
  set (first_points := if i =? 0 then _ else _).
  assert (Hidx1 : post (same point_index) first_points).
  { subst first_points. unfold gradient_first_points. frame. }
  assert (Hsig1 : post (same _scanner_signal) first_points).
  { subst first_points. unfold gradient_first_points. frame. }
  specialize (Hidx1 w1). specialize (Hsig1 w1). unfold same in Hidx1, Hsig1.
  change (self w1) with (self w) in Hidx1, Hsig1. rewrite Hi in Hidx1.
  match goal with
  | |- context [ mbind ?k first_points w1 ] =>
      destruct (bind_cases first_points k w1) as [(e & ->)|(x & -> & _)]
  end.
  { cbn [fst snd]. split; [by eauto|split; congruence]. }
  set (w2 := (first_points w1).1) in *.
  pose proof (scan_point_same_point_index i w2) as Hidx2.
  pose proof (scan_point_same_scanner_signal i w2) as Hsig2.
  unfold same in Hidx2, Hsig2.
  match goal with
  | |- context [ mbind ?k (scan_point i) w2 ] =>
      destruct (bind_cases (scan_point i) k w2) as [(e & ->)|([] & -> & Hscan)]
  end.
  { cbn [fst snd]. split; [by eauto|split; congruence]. }
  destruct (scan_point_positions_list i w2 Hscan) as [l Hl].
  set (w3 := (scan_point i w2).1) in *.
  repeat mstep. rewrite Hl.
  destruct (slopes_of_lists_raise (_scan (self w3)) l i) as [e ->].
  mstep. split; [by eauto|split; congruence].
Qed.

End Gradient.

(** ** A whole raster scan *)

Section RasterRun.
Context {H : Type} `{!MotorInterface H} `{!ProcessInterface H} `{!Lmfit}.

(** The loop of [scan_point] over the selected axes, on a row of the grid. *)
Lemma scan_point_param_dict (axes : list key) (pts : list (list Q)) (i : nat)
    (row : list Q) :
  pts !! i = Some row ->
  length axes <= ncols pts ->
  for_enumerate axes
    (fun d j axis => v ← points_item (PointsArray pts) i j; mret (dict_set d axis v)) []
  = inr (param_dict_of axes row).
Proof.
  intros Hrow Hcols. unfold param_dict_of.
  induction axes as [|axis axes IH] using rev_ind; [done|].
  rewrite length_app in Hcols. simpl in Hcols.
  rewrite for_enumerate_snoc, IH by lia.
  rewrite imap_app, fold_left_app. simpl. rewrite Nat.add_0_r.
  unfold item2, py_index.
  destruct (Z.ltb_spec (Z.of_nat i) 0) as [?|_]; [lia|].
  destruct (Z.ltb_spec (Z.of_nat i) 0) as [?|_]; [lia|].
  rewrite Nat2Z.id, Hrow.
  destruct (Nat.ltb_spec (length axes) (ncols pts)) as [_|?]; [done|lia].
Qed.

Lemma motor_positions_setter_same_point_index d :
  post (same point_index) (motor_positions_setter d).
Proof. unfold motor_positions_setter. frame. Qed.

(** One tick in the middle of a scan. *)
Lemma raster_scan_next_point (pts : list (list Q)) (k : nat) (w w' : world H) :
  never_busy ->
  Qltb (_scan_delay (self w)) 0 = false ->
  length (_optimized_axis (self w)) <= ncols pts ->
  scanned pts k w w' -> 0 < k -> k < length pts ->
  (raster_scan w').2 = inr tt /\ scanned pts (S k) w (exec raster_scan w').
Proof.
  intros Hidle Hdelay Hcols
    (Hk & Hpts & Haxes & Hd & Hmp & Hsig & (values & Hscan & Hvalues)
     & (positions & Hpos & Hpositions) & Hmoves & Hemitted) Hpos_k Hlt.
  destruct (lookup_lt_is_Some_2 pts k Hlt) as [row Hrow].
  unfold scanned, exec, raster_scan, read_point_index, scan_point, time_sleep.
  repeat mstep. rewrite Hidle. cbn [negb]. repeat mstep. rewrite Hk.
  repeat mstep.
  destruct (Nat.eqb_spec k 0) as [->|_]; [lia|]. repeat mstep.
  rewrite Hpts. cbn [points_shape0]. mstep.
  destruct (Nat.ltb_spec k (length pts)) as [_|?]; [|lia].
  repeat mstep. rewrite ?Hpts, ?Haxes.
  rewrite (scan_point_param_dict _ pts k row Hrow Hcols). repeat mstep.
  rewrite Hd, Hdelay. repeat mstep. rewrite Hscan. repeat mstep.
  rewrite Hpos. repeat mstep.
  unfold signal_emit. fields.
  rewrite ?Hpts, ?Haxes, ?Hd, ?Hmp, ?Hsig, ?Hmoves, ?Hemitted.
  split; [done|]. repeat split; try done; try (f_equal; lia).
  - eexists. split; [done|]. rewrite length_app. simpl. lia.
  - eexists. split; [done|]. rewrite length_app. simpl. lia.
  - by rewrite (take_S_r _ _ _ Hrow), map_app, app_assoc.
Qed.


Lemma ncols_grid (ranges : list (list Q)) :
  map (fun t => swap01 (rev t)) (row_major_product (rev (swap01 ranges))) <> [] ->
  ncols (map (fun t => swap01 (rev t)) (row_major_product (rev (swap01 ranges))))
  = length ranges.
Proof.
  destruct (row_major_product (rev (swap01 ranges))) as [|t ts] eqn:Hgrid; [done|].
  intros _. simpl.
  assert (Ht : In t (row_major_product (rev (swap01 ranges))))
    by (rewrite Hgrid; by left).
  apply length_row_major_rows in Ht.
  by rewrite length_swap01, length_rev, Ht, length_rev, length_swap01.
Qed.

(** The tick that [start_optimization] runs on an idle positioner samples
    the first point of the grid. *)
Lemma start_samples_first_point (w : world H) (ranges : list (list Q)) :
  let pts := map (fun t => swap01 (rev t))
                 (row_major_product (rev (swap01 ranges))) in
  _optimization_method (self w) = MethodStr "raster" ->
  never_busy ->
  Qltb (_scan_delay (self w)) 0 = false ->
  _optimized_axis (self w) <> [] ->
  Forall2 (fun axis r => dict_get (_axis_range (self w)) axis = Some r)
          (_optimized_axis (self w)) ranges ->
  0 < length pts ->
  (start_optimization w).2 = inr tt
  /\ scanned pts 1 w (exec start_optimization w).
Proof.
  intros pts Hmethod Hidle Hdelay Haxes Hranges Hpts.
  assert (Hne : ranges <> []).
  { intros ->. apply Forall2_length in Hranges.
    destruct (_optimized_axis (self w)); simpl in *; [done|lia]. }
  assert (Hcols : ncols pts = length (_optimized_axis (self w))).
  { unfold pts. rewrite ncols_grid by (intros Hnil; fold pts in Hnil;
      rewrite Hnil in Hpts; simpl in Hpts; lia).
    symmetry. by eapply Forall2_length. }
  destruct (lookup_lt_is_Some_2 pts 0 Hpts) as [row Hrow].
  unfold scanned, exec. rewrite start_optimization_eq, Hmethod. simpl.
  unfold raster_scan, read_point_index, raster_grid, scan_point, time_sleep, started.
  repeat mstep. rewrite Hidle. cbn [negb]. repeat mstep.
  rewrite Nat.eqb_refl. repeat mstep.
  rewrite (mapM_getitem _ _ _ Hranges). mstep.
  rewrite (raster_points_eq _ Hne). fold pts. repeat mstep.
  cbn [points_shape0]. mstep.
  destruct (Nat.ltb_spec 0 (length pts)) as [_|?]; [|lia].
  repeat mstep.
  rewrite (scan_point_param_dict _ pts 0 row Hrow) by lia. repeat mstep.
  rewrite Hdelay. repeat mstep.
  unfold signal_emit. fields.
  split; [done|]. repeat split; try done; try (f_equal; lia).
  - by eexists.
  - by eexists.
  - destruct pts as [|row' pts']; [done|]. by injection Hrow as ->.
Qed.

(** The start and [k] further ticks, by induction on [k]. *)
Lemma raster_run_scanned (w : world H) (ranges : list (list Q)) (k : nat) :
  let pts := map (fun t => swap01 (rev t))
                 (row_major_product (rev (swap01 ranges))) in
  _optimization_method (self w) = MethodStr "raster" ->
  never_busy ->
  Qltb (_scan_delay (self w)) 0 = false ->
  _optimized_axis (self w) <> [] ->
  Forall2 (fun axis r => dict_get (_axis_range (self w)) axis = Some r)
          (_optimized_axis (self w)) ranges ->
  S k <= length pts ->
  scanned pts (S k) w
    (run_slots (replicate k slot_raster_scan) (exec start_optimization w)).
Proof.
  intros pts Hmethod Hidle Hdelay Haxes Hranges Hle.
  assert (Hcols : length (_optimized_axis (self w)) <= ncols pts).
  { unfold pts. rewrite ncols_grid by (intros Hnil; fold pts in Hnil;
      rewrite Hnil in Hle; simpl in Hle; lia).
    apply Forall2_length in Hranges. lia. }
  induction k as [|k IH].
  - assert (Hpts : 0 < length pts) by lia.
    by destruct (start_samples_first_point w ranges Hmethod Hidle Hdelay Haxes
                   Hranges Hpts) as [_ Hfirst].
  - rewrite replicate_S_end. unfold run_slots in *. rewrite fold_left_app.
    cbn [fold_left run_slot].
    assert (Hk : scanned pts (S k) w
              (fold_left (fun w0 sl => exec (run_slot sl) w0)
                 (replicate k slot_raster_scan) (exec start_optimization w)))
      by (apply IH; lia).
    assert (Hlt : S k < length pts) by lia.
    assert (Hpos : 0 < S k) by lia.
    by destruct (raster_scan_next_point pts (S k) w _ Hidle Hdelay Hcols Hk Hpos Hlt)
      as [_ Hnext].
Qed.


(** The fit re-emits nothing. *)
Lemma raster_fit_emitted (w : world H) : emitted (raster_fit w).1 = emitted w.
Proof.
  unfold raster_fit, signal_disconnect, motor_positions_setter.
  repeat mstep.
  destruct (np_array_positions _) as [e|sp]; [by mstep|]. repeat mstep.
  destruct (fit_parameters_of _ _ _) as [e|[[params a] v]]; [by mstep|].
  repeat mstep.
  destruct (minimize _ _ _ _) as [e|fit_result]; [by mstep|].
  repeat mstep.
  destruct (fitted_position _ _) as [e|centres]; [by mstep|].
  by repeat mstep.
Qed.

(** X2: the tick that follows the last point ends the run, whatever becomes
    of the fit: it leaves the signal disconnected and does not re-emit it,
    and the point index stays where it is. *)
Theorem run_ends_at_the_fit (w : world H) (i : nat) (pts : list (list Q)) :
  np_all (dict_values (get_status (_optimized_axis (self w)) (hardware w)).2) = true ->
  point_index (self w) = Some i -> 0 < i ->
  _points (self w) = PointsArray pts -> length pts <= i ->
  _scanner_signal (self (exec raster_scan w)) = []
  /\ emitted (exec raster_scan w) = emitted w
  /\ point_index (self (exec raster_scan w)) = Some i.
Proof.
  intros Hidle Hi Hpos Hpts Hdone. unfold exec.
  rewrite (raster_scan_completed w i pts) by done.
  split; [apply raster_fit_disconnects|].
  split; [by rewrite raster_fit_emitted|].
  pose proof (motor_positions_setter_same_point_index) as Hsetter.
  assert (Hfit : post (same point_index) raster_fit).
  { unfold raster_fit, signal_disconnect. frame. }
  rewrite (Hfit (World _ _ _ _)). exact Hi.
Qed.

End RasterRun.

Section RasterRunEnd.
Context {H : Type} `{!MotorInterface H} `{!ProcessInterface H} `{!Lmfit}.


End RasterRunEnd.

(** ** The grid as a set of points *)

Section GridPermutation.

Implicit Types (xs ys : list (list Q)) (t : list Q).

Lemma flat_map_nil_const {A B} (l : list A) : flat_map (fun _ => @nil B) l = [].
Proof. by induction l. Qed.

Lemma flat_map_app_perm {A B} (f h : A -> list B) (l : list A) :
  flat_map (fun x => f x ++ h x) l ≡ₚ flat_map f l ++ flat_map h l.
Proof.
  induction l as [|x l IH]; [done|]. simpl. rewrite IH.
  rewrite <- !app_assoc. apply Permutation_app_head.
  rewrite !app_assoc. apply Permutation_app_tail. apply Permutation_app_comm.
Qed.

(** Two nested loops may be exchanged, up to the order of the result. *)
Lemma flat_map_exchange {A B C} (g : A -> B -> list C) (la : list A) (lb : list B) :
  flat_map (fun a => flat_map (fun b => g a b) lb) la
  ≡ₚ flat_map (fun b => flat_map (fun a => g a b) la) lb.
Proof.
  induction la as [|a la IH]; simpl.
  - by rewrite flat_map_nil_const.
  - rewrite IH. symmetry. apply flat_map_app_perm.
Qed.

Lemma flat_map_perm {A B} (f : A -> list B) (l l' : list A) :
  l ≡ₚ l' -> flat_map f l ≡ₚ flat_map f l'.
Proof.
  induction 1 as [|x l l' _ IH|x y l|l l' l'' _ IH1 _ IH2]; simpl.
  - done.
  - by rewrite IH.
  - rewrite !app_assoc. apply Permutation_app_tail, Permutation_app_comm.
  - by rewrite IH1.
Qed.

Lemma flat_map_of_map {A B C} (f : B -> list C) (g : A -> B) (l : list A) :
  flat_map f (map g l) = flat_map (fun x => f (g x)) l.
Proof. induction l as [|x l IH]; simpl; [done|]. by rewrite IH. Qed.

Lemma map_of_flat_map {A B C} (f : B -> C) (g : A -> list B) (l : list A) :
  map f (flat_map g l) = flat_map (fun x => map f (g x)) l.
Proof. induction l as [|x l IH]; simpl; [done|]. by rewrite map_app, IH. Qed.

Lemma flat_map_of_flat_map {A B C} (f : B -> list C) (g : A -> list B) (l : list A) :
  flat_map f (flat_map g l) = flat_map (fun x => flat_map f (g x)) l.
Proof. induction l as [|x l IH]; simpl; [done|]. by rewrite flat_map_app, IH. Qed.

Lemma flat_map_singleton {A B} (f : A -> B) (l : list A) :
  flat_map (fun a => [f a]) l = map f l.
Proof. induction l as [|x l IH]; simpl; [done|]. by rewrite IH. Qed.

(** The product with one more list at the end. *)
Lemma row_major_product_snoc ys (x : list Q) :
  row_major_product (ys ++ [x])
  = flat_map (fun t => map (fun a => t ++ [a]) x) (row_major_product ys).
Proof.
  induction ys as [|y ys IH]; simpl.
  - rewrite app_nil_r. induction x as [|a x IHx]; simpl; [done|]. by rewrite IHx.
  - rewrite IH, flat_map_of_flat_map. apply flat_map_ext. intros b.
    rewrite map_of_flat_map, flat_map_of_map. apply flat_map_ext. intros t.
    by rewrite map_map.
Qed.

(** Reversing the lists reverses the points. *)
Lemma row_major_product_rev xs :
  map (@rev Q) (row_major_product (rev xs)) ≡ₚ row_major_product xs.
Proof.
  induction xs as [|x xs IH]; [done|]. simpl.
  rewrite row_major_product_snoc, map_of_flat_map.
  erewrite flat_map_ext
    by (intros t; rewrite map_map; apply map_ext; intros a;
        rewrite rev_app_distr; reflexivity).
  simpl.
  rewrite <- (flat_map_of_map (fun t' => map (fun a => a :: t') x) (@rev Q)).
  rewrite (flat_map_perm _ _ _ IH).
  rewrite (flat_map_ext _ (fun t' => flat_map (fun a => [a :: t']) x))
    by (intros t'; by rewrite flat_map_singleton).
  rewrite flat_map_exchange. apply Permutation_refl'.
  apply flat_map_ext. intros a.
  by rewrite flat_map_singleton.
Qed.

(** Exchanging the first two lists exchanges the first two coordinates. *)
Lemma row_major_product_swap01 xs :
  map swap01 (row_major_product (swap01 xs)) ≡ₚ row_major_product xs.
Proof.
  destruct xs as [|x [|y xs]]; simpl.
  - done.
  - rewrite map_of_flat_map. apply Permutation_refl'. apply flat_map_ext.
    intros a. by simpl.
  - rewrite map_of_flat_map.
    erewrite flat_map_ext
      by (intros b; rewrite map_map, map_of_flat_map; apply flat_map_ext;
          intros a; rewrite map_map; simpl; reflexivity).
    rewrite flat_map_exchange. apply Permutation_refl'.
    apply flat_map_ext. intros a.
    rewrite map_of_flat_map. apply flat_map_ext. intros b.
    by rewrite map_map.
Qed.

(** X3: whatever the number of selected axes, the grid of a raster scan holds
    exactly the points of the Cartesian product of the ranges, each as often
    as the product holds it: the order of line 273 differs from the
    row-major one, the points do not. *)
Theorem raster_grid_is_the_product (ranges : list (list Q)) :
  ranges <> [] ->
  exists pts, raster_points ranges = inr pts /\ pts ≡ₚ row_major_product ranges.
Proof.
  intros Hne. eexists. split; [by apply raster_points_eq|].
  rewrite <- (map_map (@rev Q) swap01).
  rewrite (Permutation_map swap01 (row_major_product_rev (swap01 ranges))).
  apply row_major_product_swap01.
Qed.

End GridPermutation.

(** ** What a run leaves of the configuration *)

Section Configuration.
Context {H : Type} `{!MotorInterface H} `{!ProcessInterface H} `{!Lmfit}.

(** A field that no assignment of the run methods writes is the same after
    every operation. *)
Ltac operate_keeps :=
  let Hsp := fresh in
  let Hmp := fresh in
  match goal with
  | |- forall o, post (same ?f) (operate o) =>
      assert (Hsp : forall i, post (same f) (scan_point i))
        by (intros; unfold scan_point, time_sleep; frame);
      assert (Hmp : forall d, post (same f) (motor_positions_setter d))
        by (intros; unfold motor_positions_setter; frame);
      intros [d|name| |[]|];
      unfold operate, run_slot, start_optimization, stop_optimization,
        retrieve_alignment, raster_scan, raster_fit, raster_grid,
        gradient_descent, gradient_first_points, points_append,
        signal_connect, signal_disconnect, read_point_index; frame
  end.

Lemma operate_same_constraints : forall o, post (same _constraints) (operate o).
Proof. operate_keeps. Qed.

Lemma operate_same_axis_list : forall o, post (same _axis_list) (operate o).
Proof. operate_keeps. Qed.

Lemma operate_same_optimized_axis : forall o, post (same _optimized_axis) (operate o).
Proof. operate_keeps. Qed.

Lemma operate_same_axis_range : forall o, post (same _axis_range) (operate o).
Proof. operate_keeps. Qed.

Lemma operate_same_scan_delay : forall o, post (same _scan_delay) (operate o).
Proof. operate_keeps. Qed.

Lemma operate_same_optimization_method :
  forall o, post (same _optimization_method) (operate o).
Proof. operate_keeps. Qed.

Lemma operations_same {A} (f : logic -> A) (ops : list operation) (w : world H) :
  (forall o, post (same f) (operate o)) ->
  f (self (fold_left (fun w o => exec (operate o) w) ops w)) = f (self w).
Proof.
  intros Hf. induction ops as [|o ops IH] using rev_ind; [done|].
  rewrite fold_left_app. simpl. unfold exec at 1. by rewrite (Hf o _).
Qed.

(** X4: moves, recalls, starts, ticks of either strategy and stops, in any
    number and order and whether they return or raise, never write the
    configuration: the constraints read at activation, the axis list, the
    selected axes, the ranges, the delay and the method are those of before. *)
Theorem runs_keep_the_configuration (ops : list operation) (w : world H) :
  let w' := fold_left (fun w o => exec (operate o) w) ops w in
  _constraints (self w') = _constraints (self w)
  /\ _axis_list (self w') = _axis_list (self w)
  /\ _optimized_axis (self w') = _optimized_axis (self w)
  /\ _axis_range (self w') = _axis_range (self w)
  /\ _scan_delay (self w') = _scan_delay (self w)
  /\ _optimization_method (self w') = _optimization_method (self w).
Proof.
  intros w'. subst w'.
  repeat split; apply operations_same.
  - apply operate_same_constraints.
  - apply operate_same_axis_list.
  - apply operate_same_optimized_axis.
  - apply operate_same_axis_range.
  - apply operate_same_scan_delay.
  - apply operate_same_optimization_method.
Qed.

End Configuration.

(** ** Setters followed by a run *)

(** Reading a field after one of the configuration setters. *)
Ltac config_fields :=
  cbn [self hardware moves emitted fst snd
       _constraints _axis_list _optimized_axis _axis_range _scan_delay
       _optimization_method _alignments _motor_positions _points _scan
       _scan_pos point_index _scanner_signal
       set_constraints set_axis_list set_optimized_axis set_scan_delay
       set_axis_range set_optimization_method set_alignments
       set_motor_positions set_points set_scan set_scan_pos set_point_index
       set_scanner_signal] in *.

Section SettersAndRuns.
Context {H : Type} `{!MotorInterface H} `{!ProcessInterface H} `{!Lmfit}
        `{!MotorConstraints H}.

(** X5: a method that went through the [optimization_method] setter is
    stored as a member of the enumeration, which equals neither of the
    strings that [start_optimization] compares with: the next start resets
    the point index and does nothing else, whichever method was chosen. *)
Theorem start_after_method_setter (w : world H) (method : method_value) :
  let w1 := exec (optimization_method_setter method) w in
  (forall s, method = MethodStr s -> s = "raster" \/ s = "gradient") ->
  start_optimization w1
  = (World (set_point_index (Some 0) (self w1)) (hardware w) (moves w) (emitted w),
     inr tt).
Proof.
  intros w1 Hvalid.
  assert (Henum : exists o, w1 = World (set_optimization_method (MethodEnum o) (self w))
                                   (hardware w) (moves w) (emitted w)).
  { subst w1. unfold exec, optimization_method_setter.
    destruct method as [s|o]; [|by exists o].
    destruct (Hvalid s eq_refl) as [-> | ->]; simpl; by eexists. }
  destruct Henum as [o Hw1]. rewrite start_optimization_eq, Hw1. done.
Qed.

(** X6: a negative delay is stored by its setter, and every sampling then
    fails after the move: [scan_point] sends the positioner to the point,
    raises [ValueError] at the sleep, and records neither value nor
    position. *)
Theorem negative_delay_breaks_sampling (w : world H) (delay : Q)
    (pts : list (list Q)) (i : nat) (row : list Q) :
  let w1 := exec (scan_delay_setter delay) w in
  Qltb delay 0 = true ->
  _points (self w) = PointsArray pts ->
  pts !! i = Some row ->
  length (_optimized_axis (self w)) <= ncols pts ->
  (scan_point i w1).2 = inl ValueError
  /\ moves (exec (scan_point i) w1)
     = moves w ++ [param_dict_of (_optimized_axis (self w)) row]
  /\ _scan (self (exec (scan_point i) w1)) = _scan (self w)
  /\ _scan_pos (self (exec (scan_point i) w1)) = _scan_pos (self w).
Proof.
  intros w1 Hneg Hpts Hrow Hcols. subst w1.
  change (exec (scan_delay_setter delay) w)
    with (World (set_scan_delay delay (self w)) (hardware w) (moves w) (emitted w)).
  unfold exec, scan_point, time_sleep.
  repeat mstep. config_fields. rewrite Hpts.
  rewrite (scan_point_param_dict _ pts i row Hrow Hcols). repeat mstep.
  config_fields. rewrite Hneg. by repeat mstep.
Qed.

(** X7: stopping a run that has visited all its points does nothing at
    all: the guard fails, so the signal is not disconnected and the
    positioner is not moved back. *)
Theorem stop_after_the_last_point (w : world H) (i : nat) (pts : list (list Q)) :
  point_index (self w) = Some i ->
  _points (self w) = PointsArray pts ->
  length pts <= i ->
  stop_optimization w = (w, inr tt).
Proof.
  intros Hi Hpts Hdone. unfold stop_optimization, read_point_index.
  repeat mstep. rewrite Hi. repeat mstep. rewrite Hpts. cbn [points_shape0].
  mstep. destruct (Nat.ltb_spec i (length pts)) as [?|_]; [lia|].
  by destruct w.
Qed.

(** X8: stopping when no raster run has generated points raises
    [AttributeError] and does nothing: before the first start the object has
    no point index, and the points of a gradient run are a Python list,
    which has no shape.  The signal stays as it is and no move is sent. *)
Theorem stop_without_raster_points (w : world H) :
  point_index (self w) = None \/ (forall pts, _points (self w) <> PointsArray pts) ->
  stop_optimization w = (w, inl AttributeError).
Proof.
  intros Hcase. unfold stop_optimization, read_point_index. repeat mstep.
  destruct (point_index (self w)) as [i|] eqn:Hi.
  - destruct Hcase as [?|Hpts]; [done|]. repeat mstep.
    destruct (_points (self w)) as [|pts|l] eqn:Hp; cbn [points_shape0].
    + by mstep.
    + by destruct (Hpts pts).
    + by mstep.
  - repeat mstep. by destruct w.
Qed.

End SettersAndRuns.

(** ** Selecting the axes to optimize *)

Section Selection.
Context {H : Type} `{!MotorInterface H} `{!ProcessInterface H} `{!Lmfit}
        `{!MotorConstraints H}.

Lemma any_in_true (l known : list key) (x : key) :
  x ∈ l -> x ∈ known -> any_in l known = true.
Proof.
  intros Hl Hknown. unfold any_in. apply existsb_exists. exists x.
  split; [by apply list_elem_of_In|]. by apply bool_decide_eq_true.
Qed.

Lemma mapM_getitem_missing {V} (d : dict V) (l : list key) (x : key) :
  x ∈ l -> dict_get d x = None -> mapM (getitem d) l = inl KeyError.
Proof.
  intros Hl Hx. induction l as [|y l IH]; [by apply elem_of_nil in Hl|].
  cbn [mapM]. destruct (dict_get d y) as [v|] eqn:Hy.
  - apply elem_of_cons in Hl as [->|Hl]; [congruence|].
    cbn [mapM] in IH. rewrite (IH Hl). unfold getitem. by rewrite Hy.
  - unfold getitem. by rewrite Hy.
Qed.

(** X9: the [optimized_axis] setter takes a whole selection as soon as one
    of its axes is known.  An axis of the selection that has no range then
    stops the next raster start at its first tick, with [KeyError], when the
    grid is generated: the signal is connected and the point index is 0, but
    no move has been sent. *)
Theorem one_known_axis_accepts_the_selection (w : world H) (selection : list key)
    (known unknown : key) :
  let w1 := exec (optimized_axis_setter selection) w in
  known ∈ selection -> known ∈ _axis_list (self w) ->
  unknown ∈ selection -> dict_get (_axis_range (self w)) unknown = None ->
  _optimization_method (self w) = MethodStr "raster" ->
  np_all (dict_values (get_status selection (hardware w)).2) = true ->
  _optimized_axis (self w1) = selection
  /\ (start_optimization w1).2 = inl KeyError
  /\ moves (exec start_optimization w1) = moves w
  /\ point_index (self (exec start_optimization w1)) = Some 0
  /\ _scanner_signal (self (exec start_optimization w1))
     = _scanner_signal (self w) ++ [slot_raster_scan].
Proof.
  intros w1 Hknown Hlist Hunknown Hrange Hmethod Hidle.
  assert (Hw1 : w1 = World (set_optimized_axis selection (self w)) (hardware w)
                           (moves w) (emitted w)).
  { subst w1. unfold exec, optimized_axis_setter. mstep.
    by rewrite (any_in_true _ _ known Hknown Hlist). }
  rewrite Hw1. split; [done|].
  unfold exec. rewrite start_optimization_eq. config_fields. rewrite Hmethod.
  cbn [method_is String.eqb Ascii.eqb Bool.eqb].
  unfold raster_scan, read_point_index, raster_grid, started.
  repeat mstep. config_fields. rewrite Hidle. cbn [negb]. repeat mstep.
  rewrite Nat.eqb_refl. repeat mstep. config_fields.
  rewrite (mapM_getitem_missing _ _ unknown Hunknown Hrange).
  by repeat mstep.
Qed.

End Selection.

(** ** The ranges that the setter stores *)

Lemma Qltb_false (a b : Q) : Qltb a b = false -> (b <= a)%Q.
Proof.
  unfold Qltb. intros Hlt. apply negb_false_iff in Hlt. by apply Qle_bool_iff.
Qed.

Lemma Qltb_true (a b : Q) : Qltb a b = true -> (a < b)%Q.
Proof.
  unfold Qltb. intros Hlt. apply negb_true_iff in Hlt.
  apply Qnot_le_lt. intros Hle. apply Qle_bool_iff in Hle. congruence.
Qed.

Lemma Qltb_lt (a b : Q) : (a < b)%Q -> Qltb a b = true.
Proof.
  intros Hlt. destruct (Qltb a b) eqn:Hb; [done|].
  apply Qltb_false in Hb. lra.
Qed.

(** What the three checks let through. *)
Lemma axis_range_bounds_within (c : constraint) (request : Q * Q * Q) :
  (pos_min c <= (axis_range_bounds c request).1.1)%Q
  /\ ((axis_range_bounds c request).1.2 <= pos_max c)%Q
  /\ (pos_step c <= (axis_range_bounds c request).2)%Q.
Proof.
  destruct request as [[ax_min ax_max] ax_step]. unfold axis_range_bounds.
  cbn [fst snd]. repeat split.
  - destruct (Qltb ax_min (pos_min c)) eqn:Hlow; cbn [orb]; [lra|].
    destruct (_ || _); [lra|]. by apply Qltb_false.
  - destruct (Qltb (pos_max c) ax_max) eqn:Hhigh; cbn [orb]; [lra|].
    destruct (_ || _); [lra|]. by apply Qltb_false.
  - match goal with
    | |- context [ Qltb ax_step (pos_step c) || ?b || ?b' ] =>
        destruct (Qltb ax_step (pos_step c)) eqn:Hstep; cbn [orb]; [lra|];
        destruct (b || b'); [lra|]
    end.
    by apply Qltb_false.
Qed.

(** The positions of [np.arange] with a positive step start at [start] and
    stay below [stop]. *)
Lemma np_arange_within (start stop step : Q) :
  (0 < step)%Q ->
  exists arr, np_arange start stop step = inr arr
              /\ Forall (fun x => start <= x /\ x < stop)%Q arr.
Proof.
  intros Hstep. unfold np_arange.
  destruct (Qeq_bool step 0) eqn:Hzero.
  { apply Qeq_bool_eq in Hzero. lra. }
  eexists. split; [done|].
  apply Forall_map, Forall_seq. intros i [_ Hi]. simpl in Hi.
  set (n := Qceiling ((stop - start) / step)) in *.
  assert (Hn : (Z.of_nat i <= n - 1)%Z) by lia.
  assert (Hi0 : (0 <= inject_Z (Z.of_nat i))%Q)
    by (change 0%Q with (inject_Z 0); rewrite <- Zle_Qle; lia).
  assert (Hlt : (inject_Z (Z.of_nat i) < (stop - start) / step)%Q).
  { eapply Qle_lt_trans; [|apply Qceiling_lt]. fold n. by rewrite <- Zle_Qle. }
  apply (Qmult_lt_r _ _ step Hstep) in Hlt.
  assert (Hdiv : ((stop - start) / step * step == stop - start)%Q)
    by (field; lra).
  rewrite Hdiv in Hlt.
  split; [|lra].
  assert (0 <= inject_Z (Z.of_nat i) * step)%Q by (apply Qmult_le_0_compat; lra).
  lra.
Qed.

(** A range whose end is not above its start is empty. *)
Lemma np_arange_empty (start stop step : Q) :
  (0 < step)%Q -> (stop <= start)%Q -> np_arange start stop step = inr [].
Proof.
  intros Hstep Hle. unfold np_arange.
  destruct (Qeq_bool step 0) eqn:Hzero.
  { apply Qeq_bool_eq in Hzero. lra. }
  assert (Hq : ((stop - start) / step <= inject_Z 0)%Q).
  { apply Qle_shift_div_r; [done|]. change (inject_Z 0) with 0%Q. lra. }
  apply Qceiling_resp_le in Hq. rewrite Qceiling_Z in Hq.
  by replace (Z.to_nat _) with 0 by lia.
Qed.

Lemma dict_get_set {V} (d : dict V) (k : key) (v : V) :
  dict_get (dict_set d k v) k = Some v.
Proof.
  induction d as [|[k' v'] d IH]; simpl.
  - by rewrite decide_True.
  - destruct (decide (k' = k)) as [->|Hne]; simpl.
    + by rewrite decide_True.
    + by rewrite decide_False.
Qed.

Lemma dict_get_set_other {V} (d : dict V) (k k' : key) (v : V) :
  k <> k' -> dict_get (dict_set d k v) k' = dict_get d k'.
Proof.
  intros Hne. induction d as [|[k0 v0] d IH]; simpl.
  - by rewrite decide_False.
  - destruct (decide (k0 = k)) as [->|Hne0]; simpl.
    + by rewrite !decide_False.
    + destruct (decide (k0 = k')); [done|]. exact IH.
Qed.

Section Ranges.
Context {H : Type} `{!MotorInterface H} `{!ProcessInterface H} `{!Lmfit}.

(** The setter takes the items one after the other. *)
Lemma axis_range_setter_snoc (items : dict (Q * Q * Q)) (item : key * (Q * Q * Q)) :
  axis_range_setter (items ++ [item])
  = (axis_range_setter items;;
     cs ← attr _constraints;
     c ← lift (getitem cs item.1);
     let '(ax_min, ax_max, ax_step) := axis_range_bounds c item.2 in
     arr ← lift (np_arange ax_min ax_max ax_step);
     assign (fun s => set_axis_range (dict_set (_axis_range s) item.1 arr) s)
     : @M H unit).
Proof. unfold axis_range_setter. by rewrite fold_left_app. Qed.

(** Once an item has raised, the rest of the request is not looked at. *)
Lemma axis_range_setter_raised (c0 : @M H unit) (rest : dict (Q * Q * Q))
    (w w' : world H) (e : exn) :
  c0 w = (w', inl e) ->
  fold_left (fun before item =>
     before;;
     cs ← attr _constraints;
     c ← lift (getitem cs item.1);
     let '(ax_min, ax_max, ax_step) := axis_range_bounds c item.2 in
     arr ← lift (np_arange ax_min ax_max ax_step);
     assign (fun s => set_axis_range (dict_set (_axis_range s) item.1 arr) s))
    rest c0 w = (w', inl e).
Proof.
  revert c0. induction rest as [|item rest IH]; intros c0 Hc0; [done|].
  simpl. apply IH. unfold mbind at 1, M_bind at 1. by rewrite Hc0.
Qed.


(** X11: the setter is not atomic.  An axis that the hardware does not know
    raises [KeyError], the ranges of the axes before it in the request stay
    changed, and the axes after it are not looked at. *)
Theorem unknown_axis_keeps_earlier_ranges (items rest : dict (Q * Q * Q))
    (axis : key) (request : Q * Q * Q) (w w' : world H) :
  axis_range_setter items w = (w', inr tt) ->
  dict_get (_constraints (self w')) axis = None ->
  axis_range_setter (items ++ (axis, request) :: rest) w = (w', inl KeyError).
Proof.
  intros Hitems Hunknown.
  change (items ++ (axis, request) :: rest)
    with (items ++ [(axis, request)] ++ rest).
  rewrite app_assoc. unfold axis_range_setter at 1. rewrite fold_left_app.
  apply axis_range_setter_raised.
  change (axis_range_setter (H:=H) (items ++ [(axis, request)]) w
          = (w', inl KeyError)).
  rewrite axis_range_setter_snoc. unfold mbind at 1, M_bind at 1.
  rewrite Hitems. cbn [fst snd]. repeat mstep. unfold getitem.
  rewrite Hunknown. by mstep.
Qed.

(** X12: a request whose maximum is not above its minimum, both accepted as
    they are, is not refused: its step is replaced by the hardware step and
    the stored range is empty. *)
Theorem inverted_request_stores_empty_range (w : world H) (axis : key)
    (c : constraint) (ax_min ax_max ax_step : Q) :
  dict_get (_constraints (self w)) axis = Some c ->
  (0 < pos_step c)%Q ->
  (pos_min c <= ax_max)%Q -> (ax_max <= ax_min)%Q -> (ax_min <= pos_max c)%Q ->
  ~ (ax_min == 0)%Q -> ~ (ax_max == 0)%Q ->
  axis_range_setter [(axis, (ax_min, ax_max, ax_step))] w
  = (World (set_axis_range (dict_set (_axis_range (self w)) axis []) (self w))
           (hardware w) (moves w) (emitted w), inr tt).
Proof.
  intros Hc Hstep Hlow Hinv Hhigh Hmin Hmax.
  apply (axis_range_setter_stores w axis _ c []); [done|].
  assert (Hb : exists s, axis_range_bounds c (ax_min, ax_max, ax_step)
                         = (ax_min, ax_max, s) /\ (0 < s)%Q).
  { unfold axis_range_bounds.
    assert (Ht : forall x, ~ (x == 0)%Q -> negb (truthy x) = false).
    { intros x Hx. unfold truthy. rewrite negb_involutive.
      destruct (Qeq_bool x 0) eqn:Hz; [|done]. by apply Qeq_bool_eq in Hz. }
    assert (Hf : forall a b, (b <= a)%Q -> Qltb a b = false).
    { intros a b Hle. destruct (Qltb a b) eqn:Hlt; [|done].
      apply Qltb_true in Hlt. lra. }
    rewrite (Hf ax_min (pos_min c)), (Hf (pos_max c) ax_min), (Ht ax_min),
      (Hf (pos_max c) ax_max), (Hf ax_max (pos_min c)), (Ht ax_max)
      by (done || lra).
    cbn [orb].
    destruct (Qltb ax_step (pos_step c)) eqn:Hs; cbn [orb]; [by eexists|].
    apply Qltb_false in Hs.
    rewrite (Qltb_lt (ax_max - ax_min) ax_step) by lra. cbn [orb].
    by eexists. }
  destruct Hb as (s & -> & Hs). cbn [fst snd].
  by apply np_arange_empty.
Qed.

End Ranges.

(** ** Runs that cannot be fitted *)

Lemma np_prod_zero (sh : list nat) : 0 ∈ sh -> np_prod sh = 0.
Proof.
  induction sh as [|n sh IH]; intros Hin; [by apply elem_of_nil in Hin|].
  apply elem_of_cons in Hin as [<-|Hin]; [done|].
  unfold np_prod in *. simpl. rewrite (IH Hin). lia.
Qed.

(** A grid over ranges of which one is empty has no point. *)
Lemma grid_of_empty_range (ranges : list (list Q)) :
  [] ∈ ranges ->
  map (fun t => swap01 (rev t)) (row_major_product (rev (swap01 ranges))) = [].
Proof.
  intros Hin. apply length_zero_iff_nil.
  rewrite length_map, length_row_major_product, map_rev, np_prod_rev,
    map_swap01, np_prod_swap01.
  apply np_prod_zero.
  change 0 with (length (@nil Q)). apply list_elem_of_In, in_map.
  by apply list_elem_of_In.
Qed.

Section Unfittable.
Context {H : Type} `{!MotorInterface H} `{!ProcessInterface H} `{!Lmfit}.

(** X13: a raster run over a selection of which one axis has an empty range
    ends at its start: the grid has no point, so the first tick goes to the
    fit of no sample at all, which raises [ValueError].  The positioner has
    not been moved, and the signal is disconnected and was not emitted. *)
Theorem empty_range_ends_the_run_at_once (w : world H) (ranges : list (list Q)) :
  _optimization_method (self w) = MethodStr "raster" ->
  np_all (dict_values (get_status (_optimized_axis (self w)) (hardware w)).2) = true ->
  Forall2 (fun axis r => dict_get (_axis_range (self w)) axis = Some r)
          (_optimized_axis (self w)) ranges ->
  [] ∈ ranges ->
  (start_optimization w).2 = inl ValueError
  /\ moves (exec start_optimization w) = moves w
  /\ emitted (exec start_optimization w) = emitted w
  /\ _scanner_signal (self (exec start_optimization w)) = [].
Proof.
  intros Hmethod Hidle Hranges Hempty.
  assert (Hne : ranges <> []) by (intros ->; by apply elem_of_nil in Hempty).
  unfold exec. rewrite start_optimization_eq, Hmethod.
  cbn [method_is String.eqb Ascii.eqb Bool.eqb].
  unfold raster_scan, read_point_index, raster_grid, started.
  repeat mstep. rewrite Hidle. cbn [negb]. repeat mstep.
  rewrite Nat.eqb_refl. repeat mstep.
  rewrite (mapM_getitem _ _ _ Hranges). mstep.
  rewrite (raster_points_eq _ Hne), (grid_of_empty_range _ Hempty).
  repeat mstep. cbn [points_shape0 length]. mstep.
  change (0 <? 0) with false. cbv iota.
  match goal with
  | |- context [ raster_fit ?w0 ] =>
      pose proof (raster_fit_nothing_scanned w0 eq_refl eq_refl) as Hfit;
      pose proof (raster_fit_moves w0) as Hmoves;
      pose proof (raster_fit_emitted w0) as Hemitted;
      pose proof (raster_fit_disconnects w0) as Hsignal
  end.
  rewrite Hfit in Hmoves. by repeat split.
Qed.

End Unfittable.

(** ** The parameters handed to the fit *)

Lemma argmax_from_bound (best : Q) (ibest i : nat) (v : list Q) :
  ibest < i -> argmax_from best ibest i v < i + length v.
Proof.
  revert best ibest i. induction v as [|x v IH]; intros best ibest i Hlt; simpl.
  - lia.
  - destruct (Qltb best x).
    + specialize (IH x i (S i)). lia.
    + specialize (IH best ibest (S i)). lia.
Qed.

Lemma np_argmax_bound (v : list Q) (imax : nat) :
  np_argmax v = inr imax -> imax < length v.
Proof.
  destruct v as [|x v]; [done|]. intros [= <-]. simpl.
  pose proof (argmax_from_bound x 0 1 v). lia.
Qed.

Lemma py_index_nat {A} (l : list A) (i : nat) :
  py_index l (Z.of_nat i)
  = match l !! i with Some x => inr x | None => inl IndexError end.
Proof.
  unfold py_index.
  destruct (Z.ltb_spec (Z.of_nat i) 0) as [?|_]; [lia|].
  destruct (Z.ltb_spec (Z.of_nat i) 0) as [?|_]; [lia|].
  by rewrite Nat2Z.id.
Qed.

Lemma length_slice_even (v : list Q) : length (slice_even v) = (length v + 1) / 2.
Proof.
  assert (Hboth : length (slice_even v) = (length v + 1) / 2
                  /\ forall x, length (slice_even (x :: v)) = (length v + 2) / 2).
  { induction v as [|y v [IH1 IH2]]; [done|]. split.
    - replace (length (y :: v) + 1) with (length v + 2) by (simpl; lia).
      apply IH2.
    - intros x. cbn [slice_even length]. fold (slice_even v). rewrite IH1.
      replace (S (length v) + 2) with (length v + 1 + 1 * 2) by lia.
      rewrite Nat.div_add by lia. lia. }
  apply Hboth.
Qed.

Lemma length_slice_odd (v : list Q) : length (slice_odd v) = length v / 2.
Proof.
  destruct v as [|x v]; [done|]. unfold slice_odd.
  rewrite length_slice_even. simpl length. f_equal. lia.
Qed.

(** The steps between the odd and the even samples of an odd number of
    samples other than three have no minimum. *)
Lemma steps_of_odd_scan (col : list Q) :
  Nat.Odd (length col) -> length col <> 3 ->
  (steps ← np_subtract (slice_odd col) (slice_even col); np_min steps)
  = inl ValueError.
Proof.
  intros [k Hk] Hne.
  pose proof (length_slice_odd col) as Hodd.
  pose proof (length_slice_even col) as Heven.
  rewrite Hk in Hodd, Heven.
  replace (2 * k + 1) with (1 + k * 2) in Hodd by lia.
  replace (2 * k + 1 + 1) with (0 + (k + 1) * 2) in Heven by lia.
  rewrite Nat.div_add in Hodd, Heven by lia.
  change (1 / 2) with 0 in Hodd. change (0 / 2) with 0 in Heven.
  unfold np_subtract.
  destruct (Nat.eqb_spec (length (slice_odd col)) (length (slice_even col)))
    as [Heq|_]; [lia|].
  destruct (slice_odd col) as [|x [|x' u]], (slice_even col) as [|y [|y' u']];
    simpl in *; try done; lia.
Qed.

Lemma for_enumerate_raised {A S} (jl : list (nat * A))
    (body : S -> nat -> A -> exn + S) (e : exn) :
  fold_left (fun acc jx => s ← acc; body s jx.1 jx.2) jl (inl e) = inl e.
Proof. by induction jl. Qed.

Lemma for_enumerate_cons_raised {A S} (x : A) (l : list A)
    (body : S -> nat -> A -> exn + S) (init : S) (e : exn) :
  body init 0 x = inl e -> for_enumerate (x :: l) body init = inl e.
Proof.
  intros Hbody. unfold for_enumerate. cbn [imap fold_left fst snd mbind result_bind].
  rewrite Hbody. apply for_enumerate_raised.
Qed.

Lemma Qmin_list_le (x : Q) (v : list Q) :
  (Qmin_list x v <= x)%Q /\ Forall (fun y => Qmin_list x v <= y)%Q v.
Proof.
  unfold Qmin_list. revert x. induction v as [|y v IH]; intros x; simpl.
  - split; [lra|done].
  - destruct (Qltb y x) eqn:Hlt.
    + apply Qltb_true in Hlt. destruct (IH y) as [Hy Hv].
      split; [lra|]. by constructor.
    + apply Qltb_false in Hlt. destruct (IH x) as [Hx Hv].
      split; [done|]. constructor; [lra|done].
Qed.

Lemma Qmax_list_ge (x : Q) (v : list Q) :
  (x <= Qmax_list x v)%Q /\ Forall (fun y => y <= Qmax_list x v)%Q v.
Proof.
  unfold Qmax_list. revert x. induction v as [|y v IH]; intros x; simpl.
  - split; [lra|done].
  - destruct (Qltb x y) eqn:Hlt.
    + apply Qltb_true in Hlt. destruct (IH y) as [Hy Hv].
      split; [lra|]. by constructor.
    + apply Qltb_false in Hlt. destruct (IH x) as [Hx Hv].
      split; [done|]. constructor; [lra|done].
Qed.

Lemma np_min_le (v : list Q) (m x : Q) : np_min v = inr m -> In x v -> (m <= x)%Q.
Proof.
  destruct v as [|y v]; [done|]. intros [= <-] [<-|Hin].
  - apply Qmin_list_le.
  - pose proof (proj2 (Qmin_list_le y v)) as Hall.
    rewrite Forall_forall in Hall. apply Hall. by apply list_elem_of_In.
Qed.

Lemma np_max_ge (v : list Q) (m x : Q) : np_max v = inr m -> In x v -> (x <= m)%Q.
Proof.
  destruct v as [|y v]; [done|]. intros [= <-] [<-|Hin].
  - apply Qmax_list_ge.
  - pose proof (proj2 (Qmax_list_ge y v)) as Hall.
    rewrite Forall_forall in Hall. apply Hall. by apply list_elem_of_In.
Qed.

(** X14: the parameters of the fit cannot be computed from an odd number of
    samples other than three: with at least one selected axis, values and
    positions of one length and one coordinate per axis in every position,
    the steps between the odd and the even samples raise [ValueError]. *)
Theorem odd_scan_has_no_fit_parameters (axes : list key) (a : list (list Q))
    (v : list Q) :
  axes <> [] ->
  length v = length a ->
  Forall (fun r => length r = length axes) a ->
  Nat.Odd (length a) -> length a <> 3 ->
  fit_parameters axes a v = inl ValueError.
Proof.
  intros Haxes Hv Hrows Hodd Hne.
  destruct axes as [|axis axes]; [done|]. clear Haxes.
  assert (Hlen : 0 < length a) by (destruct Hodd as [k ?]; lia).
  unfold fit_parameters.
  destruct (np_argmax v) as [e|imax] eqn:Himax.
  { destruct v; [simpl in Hv; lia|done]. }
  apply np_argmax_bound in Himax. cbn [mbind result_bind].
  rewrite py_index_nat.
  destruct (lookup_lt_is_Some_2 a imax) as [max_pos Hmax_pos]; [lia|].
  rewrite Hmax_pos.
  assert (Hmax_len : length max_pos = S (length axes)).
  { rewrite Forall_forall in Hrows. apply (Hrows max_pos).
    by eapply list_elem_of_lookup_2. }
  destruct v as [|v0 v']; [simpl in Hv; lia|]. cbn [np_min np_max].
  cbn [mbind result_bind]. apply for_enumerate_cons_raised. cbn beta.
  assert (Hcols : ncols a = S (length axes)).
  { destruct a as [|r a']; [simpl in Hlen; lia|]. simpl.
    by apply Forall_cons in Hrows as [? _]. }
  assert (Hcol : exists col, column a 0 = inr col /\ length col = length a).
  { unfold column. rewrite Hcols. eexists. split; [done|]. by rewrite length_map. }
  destruct Hcol as (col & -> & Hcol). cbn [mbind result_bind].
  destruct col as [|c0 col'] eqn:Hcol_eq; [simpl in Hcol; lia|].
  cbn [np_min np_max mbind result_bind]. rewrite (py_index_nat max_pos 0).
  destruct max_pos as [|x0 max_pos']; [done|].
  cbn [lookup list_lookup mbind result_bind].
  pose proof (steps_of_odd_scan (c0 :: col')) as Hsteps.
  rewrite Hcol in Hsteps. specialize (Hsteps Hodd Hne).
  destruct (np_subtract _ _) as [e|steps].
  - by injection Hsteps as ->.
  - cbn [mbind result_bind] in Hsteps. cbn [mbind result_bind]. by rewrite Hsteps.
Qed.

(** X15: the amplitude, the offset and the centre of every axis start
    within the bounds given with them; of all the parameters handed to the
    fit, only the widths may not. *)
Theorem centres_start_within_bounds (axes : list key) (a : list (list Q))
    (v : list Q) (params : list parameter) :
  fit_parameters axes a v = inr params ->
  Forall (fun p => (forall j, par_name p <> par_w j) -> within_bounds p) params.
Proof.
  unfold fit_parameters.
  destruct (np_argmax v) as [e|imax]; [done|]. cbn [mbind result_bind].
  rewrite py_index_nat.
  destruct (a !! imax) as [max_pos|] eqn:Hmax_pos; [|done].
  destruct (np_min v) as [e|vmin] eqn:Hvmin; [done|].
  destruct (np_max v) as [e|vmax] eqn:Hvmax; [done|].
  cbn [mbind result_bind].
  assert (Hinit : Forall (fun p => (forall j, par_name p <> par_w j) -> within_bounds p)
                    [MkParameter par_A (Some vmin) None vmax;
                     MkParameter par_B (Some vmin) None vmin]).
  { assert (vmin <= vmax)%Q.
    { destruct v as [|x v']; [done|].
      injection Hvmin as <-. injection Hvmax as <-.
      pose proof (proj1 (Qmin_list_le x v')). pose proof (proj1 (Qmax_list_ge x v')).
      lra. }
    repeat constructor; simpl; try done; intros m [= <-]; lra. }
  revert Hinit.
  generalize [MkParameter par_A (Some vmin) None vmax;
              MkParameter par_B (Some vmin) None vmin].
  intros init Hinit. revert params.
  induction axes as [|axis axes IH] using rev_ind; intros params Hfit.
  - unfold for_enumerate in Hfit. simpl in Hfit. by injection Hfit as <-.
  - rewrite for_enumerate_snoc in Hfit.
    destruct (for_enumerate axes _ init) as [e|params0] eqn:Hparams0; [done|].
    specialize (IH params0 eq_refl).
    cbn [mbind result_bind] in Hfit.
    destruct (column a (length axes)) as [e|col] eqn:Hcol; [done|].
    cbn [mbind result_bind] in Hfit.
    destruct (np_min col) as [e|xmin] eqn:Hxmin; [done|].
    cbn [mbind result_bind] in Hfit.
    destruct (np_max col) as [e|xmax] eqn:Hxmax; [done|].
    cbn [mbind result_bind] in Hfit.
    rewrite py_index_nat in Hfit.
    destruct (max_pos !! length axes) as [xval|] eqn:Hxval; [|done].
    cbn [mbind result_bind] in Hfit.
    destruct (np_subtract _ _) as [e|steps]; [done|].
    cbn [mbind result_bind] in Hfit.
    destruct (np_min steps) as [e|wmin]; [done|].
    cbn [mbind result_bind] in Hfit.
    destruct (item2 a 0 (length axes)) as [e|first]; [done|].
    cbn [mbind result_bind] in Hfit.
    destruct (item2 a (-1) (length axes)) as [e|last]; [done|].
    cbn [mbind result_bind mret result_ret] in Hfit.
    injection Hfit as <-.
    assert (Hin : In xval col).
    { unfold column in Hcol. destruct (_ <? _); [|done]. injection Hcol as <-.
      apply in_map_iff. exists max_pos. split.
      - by apply nth_lookup_Some.
      - apply list_elem_of_In. by eapply list_elem_of_lookup_2. }
    apply Forall_app. split; [done|].
    constructor; [|constructor; [|done]].
    + intros _. split; simpl; intros m [= <-].
      * by apply (np_min_le col).
      * by apply (np_max_ge col).
    + simpl. intros Hw. by destruct (Hw (length axes)).
Qed.

(** ** The Harmonixx positioner is never busy *)

Lemma np_all_set_true (labels : list key) (d : dict bool) :
  np_all (dict_values d) = true ->
  np_all (dict_values (fold_left (fun sd label => dict_set sd label true) labels d))
  = true.
Proof.
  revert d. induction labels as [|label labels IH]; intros d Hd; [done|].
  simpl. apply IH. clear IH.
  induction d as [|[k b] d IHd]; [done|].
  unfold np_all, dict_values in *. simpl in *.
  apply andb_true_iff in Hd as [Hb Hd].
  destruct (decide (k = label)); simpl; [done|].
  rewrite Hb. by apply IHd.
Qed.

Lemma harmonixx_get_status_all_true (param_list : list key) :
  np_all (dict_values (harmonixx_get_status param_list)) = true.
Proof. unfold harmonixx_get_status. by apply np_all_set_true. Qed.

(** X16: [Harmonixx.get_status] answers [True] for every axis it is asked
    about, and for all its axes when asked about none: on this positioner
    whatever the device does, no tick ever finds an axis busy. *)
Theorem harmonixx_never_busy {D : Type}
    (device_get_pos : list key -> D -> D * dict Q)
    (device_move_abs : dict Q -> D -> D * dict Q) :
  @never_busy D (harmonixx_motor device_get_pos device_move_abs).
Proof.
  intros axes d. cbn [get_status harmonixx_motor snd].
  unfold harmonixx_get_status. by apply np_all_set_true.
Qed.

(** ** Activation *)

Section Activation.
Context {H : Type} `{!MotorInterface H} `{!ProcessInterface H} `{!Lmfit}
        `{!MotorConstraints H}.

Lemma bind_motor_get_constraints {B} (k : dict constraint -> M B) (w : world H) :
  (motor_get_constraints ≫= k) w
  = k (get_constraints (hardware w)).2
      (World (self w) (get_constraints (hardware w)).1 (moves w) (emitted w)).
Proof. done. Qed.

(** The loop of lines 96 and 97 writes the ranges only, and sends nothing. *)
Lemma default_axis_range_loop (cs : dict constraint) (c0 : @M H unit)
    (w w0 : world H) (r0 : exn + unit) :
  c0 w = (w0, r0) ->
  exists ranges r,
    fold_left (fun before item =>
       before;;
       arr ← lift (np_arange (pos_min item.2) (pos_max item.2) (pos_step item.2));
       assign (fun s => set_axis_range (dict_set (_axis_range s) item.1 arr) s))
      cs c0 w
    = (World (set_axis_range ranges (self w0)) (hardware w0) (moves w0) (emitted w0), r).
Proof.
  intros Hc0. induction cs as [|item cs IH] using rev_ind.
  - exists (_axis_range (self w0)), r0. simpl. rewrite Hc0. by destruct w0 as [[]].
  - destruct IH as (ranges & r & IH). rewrite fold_left_app. simpl.
    unfold mbind at 1, M_bind at 1. rewrite IH. destruct r as [e|[]].
    + by exists ranges, (inl e).
    + destruct (np_arange _ _ _) as [e|arr].
      * exists ranges, (inl e). by mstep.
      * exists (dict_set ranges item.1 arr), (inr tt). by repeat mstep.
Qed.

Lemma default_axis_range_frame (cs : dict constraint) (w : world H) :
  exists ranges r,
    default_axis_range cs w
    = (World (set_axis_range ranges (self w)) (hardware w) (moves w) (emitted w), r).
Proof.
  unfold default_axis_range. rewrite bind_assign.
  destruct (default_axis_range_loop cs (mret tt)
              (World (set_axis_range [] (self w)) (hardware w) (moves w) (emitted w))
              _ _ eq_refl) as (ranges & r & ->).
  by exists ranges, r.
Qed.

(** The same loop when no hardware step is zero: it returns, and every axis
    of the hardware has its full range. *)
Lemma default_axis_range_full (cs : dict constraint) (w : world H) :
  NoDup (map fst cs) ->
  Forall (fun item => ~ (pos_step item.2 == 0)%Q) cs ->
  exists ranges,
    default_axis_range cs w
    = (World (set_axis_range ranges (self w)) (hardware w) (moves w) (emitted w),
       inr tt)
    /\ Forall (fun item =>
         exists arr,
           np_arange (pos_min item.2) (pos_max item.2) (pos_step item.2) = inr arr
           /\ dict_get ranges item.1 = Some arr) cs.
Proof.
  unfold default_axis_range. rewrite bind_assign. config_fields.
  set (w0 := World (set_axis_range [] (self w)) (hardware w) (moves w) (emitted w)).
  induction cs as [|[axis c] cs IH] using rev_ind; intros Hnodup Hsteps.
  - exists []. by split.
  - rewrite map_app in Hnodup. apply NoDup_app in Hnodup as (Hnodup & Hfresh & _).
    apply Forall_app in Hsteps as [Hsteps Hstep].
    apply Forall_inv in Hstep. cbn [snd] in Hstep.
    destruct (IH Hnodup Hsteps) as (ranges & Hrun & Hfull). clear IH.
    assert (Harr : exists arr, np_arange (pos_min c) (pos_max c) (pos_step c) = inr arr).
    { unfold np_arange. destruct (Qeq_bool (pos_step c) 0) eqn:Hz.
      - apply Qeq_bool_eq in Hz. by destruct Hstep.
      - by eexists. }
    destruct Harr as [arr Harr].
    exists (dict_set ranges axis arr). split.
    + rewrite fold_left_app. simpl. unfold mbind at 1, M_bind at 1.
      rewrite Hrun. cbn [snd]. rewrite Harr. by repeat mstep.
    + apply Forall_app. split.
      * rewrite Forall_forall in Hfull. apply Forall_forall.
        intros [axis' c'] Hin. destruct (Hfull _ Hin) as (arr' & Harr' & Hget).
        exists arr'. split; [done|]. cbn [fst] in *.
        rewrite dict_get_set_other; [done|]. intros <-.
        apply (Hfresh axis); [|by left].
        apply list_elem_of_In. apply list_elem_of_In in Hin.
        apply (in_map fst) in Hin. exact Hin.
      * apply Forall_singleton. exists arr. split; [done|]. apply dict_get_set.
Qed.

(** X17: activation of an object without persisted settings takes the
    configuration from the hardware: the axis list and the selection are the
    axes of the constraints, in their order, the cached position is read
    from the positioner, and every axis has the full range of its
    constraint.  Nothing is sent to the positioner. *)
Theorem activation_of_a_fresh_object (w : world H) (cs : dict constraint) :
  _axis_list (self w) = [] -> _optimized_axis (self w) = [] ->
  _motor_positions (self w) = [] -> _axis_range (self w) = [] ->
  (get_constraints (hardware w)).2 = cs ->
  NoDup (map fst cs) ->
  Forall (fun item => ~ (pos_step item.2 == 0)%Q) cs ->
  (on_activate w).2 = inr tt
  /\ _constraints (self (exec on_activate w)) = cs
  /\ _axis_list (self (exec on_activate w)) = map fst cs
  /\ _optimized_axis (self (exec on_activate w)) = map fst cs
  /\ _motor_positions (self (exec on_activate w))
     = (get_pos (map fst cs) (get_constraints (hardware w)).1).2
  /\ moves (exec on_activate w) = moves w
  /\ Forall (fun item =>
       exists arr,
         np_arange (pos_min item.2) (pos_max item.2) (pos_step item.2) = inr arr
         /\ dict_get (_axis_range (self (exec on_activate w))) item.1 = Some arr) cs.
Proof.
  intros Hlist Hsel Hpos Hrange Hcs Hnodup Hsteps.
  unfold exec, on_activate. rewrite bind_motor_get_constraints, Hcs.
  repeat mstep. config_fields. rewrite Hlist. cbn [is_empty].
  repeat mstep. config_fields. rewrite Hsel. cbn [is_empty].
  repeat mstep. config_fields.
  destruct (size (_alignments (self w)) =? 0); repeat mstep; config_fields;
    rewrite bind_attr; config_fields;
    rewrite Hpos; cbn [is_empty]; repeat mstep; config_fields;
    rewrite bind_attr; config_fields;
    rewrite Hrange; cbn [is_empty]; repeat mstep; config_fields;
    match goal with
    | |- context [ default_axis_range cs ?w0 ] =>
        destruct (default_axis_range_full cs w0 Hnodup Hsteps)
          as (ranges & -> & Hfull)
    end; by config_fields.
Qed.

(** X18: activation never moves the positioner and never emits the signal,
    and it keeps the alignment table and every persisted setting that is not
    empty as it finds them, without checking them against the constraints
    that it has just read. *)
Theorem activation_keeps_persisted_settings (w : world H) :
  moves (exec on_activate w) = moves w
  /\ emitted (exec on_activate w) = emitted w
  /\ _alignments (self (exec on_activate w)) = _alignments (self w)
  /\ (_axis_list (self w) <> [] ->
      _axis_list (self (exec on_activate w)) = _axis_list (self w))
  /\ (_optimized_axis (self w) <> [] ->
      _optimized_axis (self (exec on_activate w)) = _optimized_axis (self w))
  /\ (_motor_positions (self w) <> [] ->
      _motor_positions (self (exec on_activate w)) = _motor_positions (self w))
  /\ (_axis_range (self w) <> [] ->
      (on_activate w).2 = inr tt
      /\ _axis_range (self (exec on_activate w)) = _axis_range (self w)).
Proof.
  unfold exec, on_activate. rewrite bind_motor_get_constraints.
  repeat mstep. config_fields.
  destruct (_axis_list (self w)) as [|a0 al] eqn:Hlist; cbn [is_empty];
    repeat mstep; config_fields.
  all: destruct (_optimized_axis (self w)) as [|s0 sl] eqn:Hsel; cbn [is_empty];
    repeat mstep; config_fields.
  all: destruct (size (_alignments (self w)) =? 0) eqn:Hsize;
    repeat mstep; config_fields.
  all: rewrite bind_attr; config_fields.
  all: destruct (_motor_positions (self w)) as [|p0 pl] eqn:Hpos; cbn [is_empty];
    repeat mstep; config_fields.
  all: rewrite ?bind_attr; config_fields.
  all: destruct (_axis_range (self w)) as [|r0 rl] eqn:Hrange; cbn [is_empty];
    repeat mstep; config_fields.
  all: try match goal with
           | |- context [ default_axis_range ?cs ?w0 ] =>
               destruct (default_axis_range_frame cs w0) as (ranges & r & ->)
           end; config_fields.
  all: repeat split; try done.
  all: try (apply Nat.eqb_eq, map_size_empty_inv in Hsize; by rewrite Hsize).
Qed.

End Activation.

(** ** The alignment table *)

Section Table.
Context {H : Type} `{!MotorInterface H} `{!ProcessInterface H} `{!Lmfit}.

(** X19: saving under one name leaves the recall of every other name as it
    was: the same result, the same commands to the positioner, the same
    cached position afterwards.  In particular a name that was never saved
    stays ignored. *)
Theorem recall_of_another_name (w : world H) (name other : string) :
  name <> other ->
  (retrieve_alignment other (exec (add_alignment name) w)).2
  = (retrieve_alignment other w).2
  /\ moves (exec (retrieve_alignment other) (exec (add_alignment name) w))
     = moves (exec (retrieve_alignment other) w)
  /\ hardware (exec (retrieve_alignment other) (exec (add_alignment name) w))
     = hardware (exec (retrieve_alignment other) w)
  /\ _motor_positions (self (exec (retrieve_alignment other)
                               (exec (add_alignment name) w)))
     = _motor_positions (self (exec (retrieve_alignment other) w)).
Proof.
  intros Hne. unfold exec, retrieve_alignment, add_alignment.
  change ((assign ?g w).1) with (World (g (self w)) (hardware w) (moves w) (emitted w)).
  repeat mstep. rewrite lookup_insert_ne by done.
  destruct (_alignments (self w) !! other) as [d|]; by repeat mstep.
Qed.

End Table.

(** * Runs on the bench *)

Section BenchRuns.
#[local] Existing Instance bench_motor.
#[local] Existing Instance bench_counter.
#[local] Existing Instance bench_lmfit.

(** The grid of the two-axis bench. *)
Lemma start_raster_point_list_witness :
  exists pts,
    _points (self (exec start_optimization bench_world)) = PointsArray pts
    /\ length pts = np_prod (map length [[10; 11]; [32; 33]]%Q)
    /\ pts = map (fun t => swap01 (rev t))
                 (row_major_product (rev (swap01 [[10; 11]; [32; 33]]%Q)))
    /\ (length [[10; 11]; [32; 33]]%Q <= 2 ->
        pts = row_major_product [[10; 11]; [32; 33]]%Q).
Proof.
  apply (start_raster_point_list bench_world [[10; 11]; [32; 33]]%Q).
  - reflexivity.
  - reflexivity.
  - discriminate.
  - repeat constructor.
Defined.

(** With three axes the grid is not the row-major expansion: its second
    point differs from the first on the second axis, not on the last. *)
Lemma three_axes_not_row_major :
  _points (self (exec start_optimization bench_world3))
  <> PointsArray (row_major_product [[10; 11]; [32; 33]; [4; 5]]%Q).
Proof. vm_compute. discriminate. Qed.




(** The first tick of the gradient method on the bench. *)
Lemma gradient_tick_raises_witness :
  (exists e, (gradient_descent bench_world_gradient).2 = inl e)
  /\ point_index (self (gradient_descent bench_world_gradient).1)
     = point_index (self bench_world_gradient)
  /\ _scanner_signal (self (gradient_descent bench_world_gradient).1)
     = _scanner_signal (self bench_world_gradient).
Proof.
  apply (gradient_tick_raises bench_world_gradient). reflexivity.
Defined.

(** Starting the gradient method on the bench: the first tick raises
    KeyError at [self._motor_positions[0]]. *)
Lemma gradient_start_raises_key_error :
  (start_optimization bench_world_gradient).2 = inl KeyError.
Proof. reflexivity. Qed.

(** Three ticks on a motor that stays busy for three status queries. *)
Lemma busy_ticks_change_nothing_witness :
  self (run_slots [slot_raster_scan; slot_gradient_descent; slot_raster_scan]
                  bench_world_busy) = self bench_world_busy
  /\ moves (run_slots [slot_raster_scan; slot_gradient_descent; slot_raster_scan]
                      bench_world_busy) = moves bench_world_busy
  /\ emitted (run_slots [slot_raster_scan; slot_gradient_descent; slot_raster_scan]
                        bench_world_busy) = emitted bench_world_busy + 3.
Proof.
  apply (busy_ticks_change_nothing
           [slot_raster_scan; slot_gradient_descent; slot_raster_scan]
           bench_world_busy).
  simpl. repeat split; reflexivity.
Defined.



(** Saving, moving SHG away, recalling: the last move goes back to the
    saved position of both axes. *)
Lemma recall_on_the_bench :
  moves (exec (retrieve_alignment "A")
           (exec (motor_positions_setter [(SHG, 20%Q)])
              (exec (add_alignment "A") bench_world)))
  = [[(SHG, 20%Q)]; [(SHG, 10%Q); (THG, 32%Q)]].
Proof. vm_compute. reflexivity. Qed.


End BenchRuns.

(** * More runs on the bench *)

Section HarmonixxRuns.
#[local] Existing Instance bench_harmonixx.
#[local] Existing Instance bench_counter.
#[local] Existing Instance bench_lmfit.



End HarmonixxRuns.

Section MoreBenchRuns.
#[local] Existing Instance bench_motor.
#[local] Existing Instance bench_counter.
#[local] Existing Instance bench_lmfit.
#[local] Existing Instance harmonixx_constraints.

(** The tick after the fourth and last point of the two-axis run. *)
Lemma run_ends_at_the_fit_witness :
  _scanner_signal (self (exec raster_scan bench_completed)) = []
  /\ emitted (exec raster_scan bench_completed) = emitted bench_completed
  /\ point_index (self (exec raster_scan bench_completed)) = Some 4.
Proof.
  apply (run_ends_at_the_fit bench_completed 4
           [[10; 32]; [10; 33]; [11; 32]; [11; 33]]%Q).
  - reflexivity.
  - reflexivity.
  - lia.
  - reflexivity.
  - simpl. lia.
Defined.

(** The grid of three axes. *)
Lemma raster_grid_is_the_product_witness :
  exists pts,
    raster_points [[10; 11]; [32; 33]; [4; 5]]%Q = inr pts
    /\ pts ≡ₚ row_major_product [[10; 11]; [32; 33]; [4; 5]]%Q.
Proof.
  apply (raster_grid_is_the_product [[10; 11]; [32; 33]; [4; 5]]%Q).
  discriminate.
Defined.

(** The method chosen by name through its setter. *)
Lemma start_after_method_setter_witness :
  start_optimization (exec (optimization_method_setter (MethodStr "raster")) bench_world)
  = (World (set_point_index (Some 0)
              (self (exec (optimization_method_setter (MethodStr "raster"))
                          bench_world)))
           (hardware bench_world) (moves bench_world) (emitted bench_world),
     inr tt).
Proof.
  apply (start_after_method_setter bench_world (MethodStr "raster")).
  intros s [= <-]. by left.
Defined.

(** A delay of minus one second, in the middle of the two-axis run. *)
Lemma negative_delay_breaks_sampling_witness :
  (scan_point 2 (exec (scan_delay_setter (-1)) bench_mid_run)).2 = inl ValueError
  /\ moves (exec (scan_point 2) (exec (scan_delay_setter (-1)) bench_mid_run))
     = moves bench_mid_run
       ++ [param_dict_of (_optimized_axis (self bench_mid_run)) [11; 32]%Q]
  /\ _scan (self (exec (scan_point 2) (exec (scan_delay_setter (-1)) bench_mid_run)))
     = _scan (self bench_mid_run)
  /\ _scan_pos (self (exec (scan_point 2)
                        (exec (scan_delay_setter (-1)) bench_mid_run)))
     = _scan_pos (self bench_mid_run).
Proof.
  apply (negative_delay_breaks_sampling bench_mid_run (-1)
           [[10; 32]; [10; 33]; [11; 32]; [11; 33]]%Q 2 [11; 32]%Q).
  - reflexivity.
  - reflexivity.
  - reflexivity.
  - simpl. lia.
Defined.

(** Stopping the two-axis run after its last point. *)
Lemma stop_after_the_last_point_witness :
  stop_optimization bench_completed = (bench_completed, inr tt).
Proof.
  apply (stop_after_the_last_point bench_completed 4
           [[10; 32]; [10; 33]; [11; 32]; [11; 33]]%Q).
  - reflexivity.
  - reflexivity.
  - simpl. lia.
Defined.

(** Stopping before the first start. *)
Lemma stop_without_raster_points_witness :
  stop_optimization bench_world = (bench_world, inl AttributeError).
Proof.
  apply (stop_without_raster_points bench_world). left. reflexivity.
Defined.

(** SHG together with DC, which the two-axis bench does not have. *)
Lemma one_known_axis_accepts_the_selection_witness :
  _optimized_axis (self (exec (optimized_axis_setter [SHG; DC]) bench_world))
  = [SHG; DC]
  /\ (start_optimization (exec (optimized_axis_setter [SHG; DC]) bench_world)).2
     = inl KeyError
  /\ moves (exec start_optimization
              (exec (optimized_axis_setter [SHG; DC]) bench_world))
     = moves bench_world
  /\ point_index (self (exec start_optimization
                          (exec (optimized_axis_setter [SHG; DC]) bench_world)))
     = Some 0
  /\ _scanner_signal (self (exec start_optimization
                              (exec (optimized_axis_setter [SHG; DC]) bench_world)))
     = _scanner_signal (self bench_world) ++ [slot_raster_scan].
Proof.
  apply (one_known_axis_accepts_the_selection bench_world [SHG; DC] SHG DC).
  - by left.
  - by left.
  - right. by left.
  - reflexivity.
  - reflexivity.
  - reflexivity.
Defined.


(** A request that names DC between SHG and THG. *)
Lemma unknown_axis_keeps_earlier_ranges_witness :
  axis_range_setter ([(SHG, (20, 30, 2)%Q)] ++ (DC, (5, 9, 1)%Q) :: [(THG, (40, 50, 1)%Q)])
                    bench_world
  = (bench_world_ranged, inl KeyError).
Proof.
  apply (unknown_axis_keeps_earlier_ranges [(SHG, (20, 30, 2)%Q)]
           [(THG, (40, 50, 1)%Q)] DC (5, 9, 1)%Q bench_world bench_world_ranged).
  - reflexivity.
  - reflexivity.
Defined.

(** From 30 down to 20 on SHG. *)
Lemma inverted_request_stores_empty_range_witness :
  axis_range_setter [(SHG, (30, 20, 1)%Q)] bench_world
  = (World (set_axis_range (dict_set (_axis_range (self bench_world)) SHG [])
                           (self bench_world))
           (hardware bench_world) (moves bench_world) (emitted bench_world), inr tt).
Proof.
  apply (inverted_request_stores_empty_range bench_world SHG (Constraint 10 3096 1)
           30 20 1).
  - reflexivity.
  - reflexivity.
  - discriminate.
  - discriminate.
  - discriminate.
  - discriminate.
  - discriminate.
Defined.

(** The run over the inverted range of SHG. *)
Lemma empty_range_ends_the_run_at_once_witness :
  (start_optimization bench_world_inverted).2 = inl ValueError
  /\ moves (exec start_optimization bench_world_inverted) = moves bench_world_inverted
  /\ emitted (exec start_optimization bench_world_inverted)
     = emitted bench_world_inverted
  /\ _scanner_signal (self (exec start_optimization bench_world_inverted)) = [].
Proof.
  apply (empty_range_ends_the_run_at_once bench_world_inverted [[]; [32; 33]]%Q).
  - reflexivity.
  - reflexivity.
  - repeat constructor.
  - by left.
Defined.

(** Five samples on one axis. *)
Lemma odd_scan_has_no_fit_parameters_witness :
  fit_parameters [SHG] [[0]; [1]; [2]; [3]; [4]]%Q [1; 5; 2; 1; 1]%Q
  = inl ValueError.
Proof.
  apply (odd_scan_has_no_fit_parameters [SHG] [[0]; [1]; [2]; [3]; [4]]%Q
           [1; 5; 2; 1; 1]%Q).
  - discriminate.
  - reflexivity.
  - repeat constructor.
  - exists 2. reflexivity.
  - discriminate.
Defined.

(** Four samples on one axis. *)
Lemma centres_start_within_bounds_witness :
  Forall (fun p => (forall j, par_name p <> par_w j) -> within_bounds p)
    [MkParameter par_A (Some 1%Q) None 5%Q;
     MkParameter par_B (Some 1%Q) None 1%Q;
     MkParameter (par_x 0) (Some 0%Q) (Some 3%Q) 1%Q;
     MkParameter (par_w 0) (Some 1%Q) (Some (-3)%Q) (-3 # 10)%Q].
Proof.
  apply (centres_start_within_bounds [SHG] [[0]; [1]; [2]; [3]]%Q [1; 5; 2; 1]%Q).
  reflexivity.
Defined.

(** The first activation on the constraints of the Harmonixx module. *)
Lemma activation_of_a_fresh_object_witness :
  (on_activate bench_fresh).2 = inr tt
  /\ _constraints (self (exec on_activate bench_fresh)) = harmonixx_get_constraints
  /\ _axis_list (self (exec on_activate bench_fresh))
     = map fst harmonixx_get_constraints
  /\ _optimized_axis (self (exec on_activate bench_fresh))
     = map fst harmonixx_get_constraints
  /\ _motor_positions (self (exec on_activate bench_fresh))
     = (get_pos (map fst harmonixx_get_constraints)
                (get_constraints (hardware bench_fresh)).1).2
  /\ moves (exec on_activate bench_fresh) = moves bench_fresh
  /\ Forall (fun item =>
       exists arr,
         np_arange (pos_min item.2) (pos_max item.2) (pos_step item.2) = inr arr
         /\ dict_get (_axis_range (self (exec on_activate bench_fresh))) item.1
            = Some arr) harmonixx_get_constraints.
Proof.
  apply (activation_of_a_fresh_object bench_fresh harmonixx_get_constraints).
  - reflexivity.
  - reflexivity.
  - reflexivity.
  - reflexivity.
  - reflexivity.
  - apply (bool_decide_unpack (NoDup (map fst harmonixx_get_constraints))).
    vm_compute. exact I.
  - repeat constructor; discriminate.
Defined.

(** Saving under one name and recalling another. *)
Lemma recall_of_another_name_witness :
  (retrieve_alignment "blue" (exec (add_alignment "red") bench_world)).2
  = (retrieve_alignment "blue" bench_world).2
  /\ moves (exec (retrieve_alignment "blue") (exec (add_alignment "red") bench_world))
     = moves (exec (retrieve_alignment "blue") bench_world)
  /\ hardware (exec (retrieve_alignment "blue")
                 (exec (add_alignment "red") bench_world))
     = hardware (exec (retrieve_alignment "blue") bench_world)
  /\ _motor_positions (self (exec (retrieve_alignment "blue")
                               (exec (add_alignment "red") bench_world)))
     = _motor_positions (self (exec (retrieve_alignment "blue") bench_world)).
Proof.
  apply (recall_of_another_name bench_world "red" "blue"). discriminate.
Defined.

End MoreBenchRuns.
